(** * vquant: verification of the factor-data access layer

    A shallow embedding of [vquant/core.py], [vquant/factors.py],
    [vquant/signals.py] and [vquant/storage.py].  Python exceptions are
    the [Raise] outcome of a small monad that also records, in order, every
    file read and every transform call; pandas tables are an index of dates
    and a list of labelled columns. *)

From stdpp Require Import base decidable option list sorting strings pretty gmap.
From Stdlib Require Import ZArith Ascii.

(** ** Python exceptions and the effect monad *)

(** Modelled from the spec: [vquant/exceptions.py] is imported by every
    module but is not among the sources.  Its two error kinds,
    [FactorNotFoundError] ("the addressed resource does not exist") and
    [DataLoadError] ("resource exists but cannot be parsed, or any other
    I/O/deserialization failure"), are two distinct classes below
    [Exception]; the other kinds are the built-in exceptions that the
    modelled code and pandas raise. *)
Inductive ExcKind : Type :=
  | FileNotFoundError
  | KeyError
  | ValueError
  | IndexError
  | RecursionError
  | OtherException
  | FactorNotFoundError
  | DataLoadError.

#[global] Instance ExcKind_eq_dec : EqDecision ExcKind.
Proof. solve_decision. Defined.

(** An exception object: its class and [str(e)]. *)
Record Exc : Type := MkExc { exc_kind : ExcKind; exc_msg : string }.

(** What is observed of a run besides its result: the [pd.read_parquet]
    calls and the calls of a computed factor's transform, in program
    order. *)
Inductive Event : Type :=
  | EvRead (path : string)
  | EvTransform (factor ticker : string).

Inductive Res (A : Type) : Type :=
  | Ok (a : A)
  | Raise (e : Exc).
Arguments Ok {A} a.
Arguments Raise {A} e.

Record Run (A : Type) : Type := MkRun { trace : list Event; outcome : Res A }.
Arguments MkRun {A} trace outcome.
Arguments trace {A} r.
Arguments outcome {A} r.

Definition ret {A} (a : A) : Run A := MkRun [] (Ok a).

Definition lift {A} (r : Res A) : Run A := MkRun [] r.

Definition raise {A} (k : ExcKind) (msg : string) : Run A :=
  MkRun [] (Raise (MkExc k msg)).

Definition emit (ev : Event) : Run unit := MkRun [ev] (Ok tt).

Definition bind {A B} (m : Run A) (f : A → Run B) : Run B :=
  match outcome m with
  | Ok a => MkRun (trace m ++ trace (f a)) (outcome (f a))
  | Raise e => MkRun (trace m) (Raise e)
  end.

(** [try: m  except Exception as e: h e] *)
Definition try_except {A} (m : Run A) (h : Exc → Run A) : Run A :=
  match outcome m with
  | Ok _ => m
  | Raise e => MkRun (trace m ++ trace (h e)) (outcome (h e))
  end.

Notation "x <- m ;; k" := (bind m (fun x => k))
  (at level 100, m at next level, right associativity).

(** [for x in l: s = body s x], stopping at the first exception. *)
Fixpoint for_each {A S} (l : list A) (body : S → A → Run S) (s : S) : Run S :=
  match l with
  | [] => ret s
  | x :: l' => s' <- body s x ;; for_each l' body s'
  end.

Definition res_bind {A B} (r : Res A) (f : A → Res B) : Res B :=
  match r with
  | Ok a => f a
  | Raise e => Raise e
  end.

Definition is_Raise {A} (r : Res A) : Prop :=
  match r with
  | Ok _ => False
  | Raise _ => True
  end.

(** ** Python strings *)

(** [s.partition(".")]: the text before and after the first dot, when
    there is one. *)
Fixpoint partition_dot (s : string) : option (string * string) :=
  match s with
  | EmptyString => None
  | String c s' =>
      if Ascii.eqb c "."%char then Some (EmptyString, s')
      else match partition_dot s' with
           | Some (a, b) => Some (String c a, b)
           | None => None
           end
  end.

(** ["." in s] *)
Definition has_dot (s : string) : bool :=
  match partition_dot s with
  | Some _ => true
  | None => false
  end.

(** [s.split(".", 1)] *)
Definition split_dot_1 (s : string) : list string :=
  match partition_dot s with
  | Some (a, b) => [a; b]
  | None => [s]
  end.

(** [l[i]] on a Python list *)
Definition py_index {A} (l : list A) (i : nat) : Res A :=
  match l !! i with
  | Some x => Ok x
  | None => Raise (MkExc IndexError "list index out of range")
  end.

(** ** pandas tables *)

(** A cell holds a value of type [V] or the missing marker (NaN). *)
Definition Cell (V : Type) : Type := option V.

(** The conversion that pandas applies to the values of a column when it
    inserts a missing marker into it: the NaN promotion of the column's
    dtype ([int64] becomes [float64], which rounds integers beyond 53 bits;
    [float64] values stay as they are). *)
Class Promote (V : Type) : Type := promote : V → V.
#[global] Hint Mode Promote ! : typeclass_instances.

(** A series: index labels with their values, in row order. *)
Definition Series (V : Type) : Type := list (Z * Cell V).

(** A frame: the row index, and the labelled columns in column order; a
    column's values are in row order. *)
Record DataFrame (V L : Type) : Type :=
  MkFrame { df_index : list Z; df_columns : list (L * list (Cell V)) }.
Arguments MkFrame {V L} df_index df_columns.
Arguments df_index {V L} d.
Arguments df_columns {V L} d.

(** What [pd.read_parquet] returns for a readable file: the row labels of
    the frame (the stored index, or 0..n-1), its ["date"] column when it
    has one, and its other columns. *)
Record ParquetTable (V : Type) : Type :=
  MkParquet { pq_index : list Z;
              pq_date : option (list Z);
              pq_columns : list (string * list (Cell V)) }.
Arguments MkParquet {V} pq_index pq_date pq_columns.
Arguments pq_index {V} p.
Arguments pq_date {V} p.
Arguments pq_columns {V} p.

(** A stored resource that exists: unreadable, or a table. *)
Inductive File (V : Type) : Type :=
  | Unreadable (msg : string)
  | Parquet (t : ParquetTable V).
Arguments Unreadable {V} msg.
Arguments Parquet {V} t.

(** ** pandas operations used by the code *)

Section Pandas.
Context {V : Type} `{!Promote V}.

(** [pd.read_parquet(path)] against the files that exist:
    [FileNotFoundError] when there is none at [path], some other
    exception when it cannot be deserialized. *)
Definition read_parquet (fs : gmap string (File V)) (path : string)
  : Run (ParquetTable V) :=
  _ <- emit (EvRead path) ;;
  match fs !! path with
  | None => raise FileNotFoundError ("No such file or directory: " +:+ path)
  | Some (Unreadable msg) => raise OtherException msg
  | Some (Parquet t) => ret t
  end.

(** The value of a column at an index label: the first row with that
    label, NaN when there is none. *)
Fixpoint cell_at (idx : list Z) (data : list (Cell V)) (d : Z) : Cell V :=
  match idx, data with
  | i :: idx', c :: data' => if decide (i = d) then c else cell_at idx' data' d
  | _, _ => None
  end.

Definition column_of (cols : list (string * list (Cell V))) (c : string)
  : option (list (Cell V)) :=
  snd <$> List.find (λ p, bool_decide (p.1 = c)) cols.

(** [t[["date"] + cols].set_index("date")]: the selection raises
    [KeyError] for a label that is not a column; with ["date"] selected
    twice [set_index] gets a two-column frame for its key and raises
    [ValueError]. *)
Definition select_by_date (t : ParquetTable V) (cols : list string)
  : Res (DataFrame V string) :=
  match pq_date t with
  | None => Raise (MkExc KeyError "['date'] not in index")
  | Some dates =>
      match List.find (λ c, bool_decide (c ≠ "date" ∧ column_of (pq_columns t) c = None)) cols with
      | Some c => Raise (MkExc KeyError ("['" +:+ c +:+ "'] not in index"))
      | None =>
          if bool_decide ("date" ∈ cols)
          then Raise (MkExc ValueError "Index data must be 1-dimensional")
          else Ok (MkFrame dates
                     ((λ c, (c, default [] (column_of (pq_columns t) c))) <$> cols))
      end
  end.

(** [t.set_index("date")] *)
Definition set_index_date (t : ParquetTable V) : Res (DataFrame V string) :=
  match pq_date t with
  | None => Raise (MkExc KeyError "None of ['date'] are in the columns")
  | Some dates => Ok (MkFrame dates (pq_columns t))
  end.

(** [t["value"]]: a series on the frame's own row labels. *)
Definition getitem_value (t : ParquetTable V) : Res (Series V) :=
  match column_of (pq_columns t) "value" with
  | None => Raise (MkExc KeyError "value")
  | Some data => Ok (zip (pq_index t) data)
  end.

(** [pd.concat(list of index series)]: raises on an empty list. *)
Definition pd_concat (idxs : list (list Z)) : Res (list Z) :=
  match idxs with
  | [] => Raise (MkExc ValueError "No objects to concatenate")
  | _ => Ok (List.concat idxs)
  end.

(** [.unique()]: first occurrences, in order of appearance. *)
Fixpoint unique (l : list Z) : list Z :=
  match l with
  | [] => []
  | x :: l' => x :: filter (λ y, y ≠ x) (unique l')
  end.

(** [sorted(...)] on dates. *)
Definition sorted (l : list Z) : list Z := merge_sort Z.le l.

(** [pd.Index(sorted(pd.concat([...]).unique()))] *)
Definition unified_index (idxs : list (list Z)) : Res (list Z) :=
  res_bind (pd_concat idxs) (λ all, Ok (sorted (unique all))).

(** The cell that [.reindex(target)] gives a column at a label of
    [target]: the row is looked up by label; when some label of [target]
    is not in the index, the column receives a missing marker and all its
    values are promoted. *)
Definition reindex_cell (idx : list Z) (data : list (Cell V)) (target : list Z)
    (d : Z) : Cell V :=
  if bool_decide (Forall (λ d', d' ∈ idx) target)
  then cell_at idx data d
  else promote <$> cell_at idx data d.

(** [.reindex(target)] of a frame: the frame itself on its own index;
    otherwise rows are looked up by label, which pandas refuses on an
    index with duplicate labels. *)
Definition frame_reindex {L} (df : DataFrame V L) (target : list Z)
  : Res (DataFrame V L) :=
  if bool_decide (df_index df = target) then Ok df
  else if bool_decide (NoDup (df_index df))
  then Ok (MkFrame target
             ((λ p, (p.1, reindex_cell (df_index df) p.2 target <$> target))
                <$> df_columns df))
  else Raise (MkExc ValueError "cannot reindex on an axis with duplicate labels").

(** [.reindex(target)] of a series. *)
Definition series_reindex (s : Series V) (target : list Z) : Res (Series V) :=
  if bool_decide (s.*1 = target) then Ok s
  else if bool_decide (NoDup s.*1)
  then Ok ((λ d, (d, reindex_cell s.*1 s.*2 target d)) <$> target)
  else Raise (MkExc ValueError "cannot reindex on an axis with duplicate labels").

(** [df[col]]: the columns labelled [col] (one, for a series). *)
Definition getitem {L} `{EqDecision L} (df : DataFrame V L) (col : L)
  : list (list (Cell V)) :=
  snd <$> filter (λ p, p.1 = col) (df_columns df).

(** [df[key] = data] for a column of values on the frame's index: a new
    label is appended as the last column, an existing label has its
    column(s) replaced in place. *)
Definition setitem {L} `{EqDecision L} (df : DataFrame V L) (key : L)
    (data : list (Cell V)) : DataFrame V L :=
  if bool_decide (key ∈ (df_columns df).*1)
  then MkFrame (df_index df)
         ((λ p, if bool_decide (p.1 = key) then (p.1, data) else p) <$> df_columns df)
  else MkFrame (df_index df) (df_columns df ++ [(key, data)]).

(** [s[l]] on a series whose labels are integers: the lookup is by label,
    not by position, and gives the value at the label (labels are unique
    where the code uses it), [KeyError] when the series has no such
    label. *)
Definition series_getitem (s : Series V) (l : Z) : Res (Cell V) :=
  match List.find (λ p, bool_decide (p.1 = l)) s with
  | Some p => Ok p.2
  | None => Raise (MkExc KeyError (pretty l))
  end.

(** [for i, iloc in enumerate(ilocs): df[iloc] = value[i]]: the [i]-th
    column labelled [key] gets the scalar [value[i]] in each of its [n]
    rows. *)
Fixpoint setitem_each {L} `{EqDecision L} (n : nat)
    (cols : list (L * list (Cell V))) (key : L) (value : Series V) (i : nat)
  : Res (list (L * list (Cell V))) :=
  match cols with
  | [] => Ok []
  | p :: cols' =>
      if bool_decide (p.1 = key)
      then res_bind (series_getitem value (Z.of_nat i)) (λ c,
           res_bind (setitem_each n cols' key value (S i)) (λ r,
           Ok ((p.1, replicate n c) :: r)))
      else res_bind (setitem_each n cols' key value i) (λ r, Ok (p :: r))
  end.

(** [df[key] = value] for a series on the frame's index.  When the label
    is that of several columns and the series has as many elements as
    there are such columns, pandas takes one element per column
    ([DataFrame.__setitem__], "column to set is duplicated"), reading the
    elements as [value[0]], [value[1]], ...; otherwise the series becomes
    the column(s) of that label. *)
Definition setitem_series {L} `{EqDecision L} (df : DataFrame V L) (key : L)
    (value : Series V) : Res (DataFrame V L) :=
  let n := length (filter (λ p, p.1 = key) (df_columns df)) in
  if bool_decide (1 < n ∧ n = length value)
  then res_bind (setitem_each (length (df_index df)) (df_columns df) key value 0)
         (λ cols, Ok (MkFrame (df_index df) cols))
  else Ok (setitem df key value.*2).

(** [df[key] = src[col]]: only a single column can be assigned to one
    label. *)
Definition setitem_from {L K} `{EqDecision L} `{EqDecision K}
    (df : DataFrame V L) (key : L) (src : DataFrame V K) (col : K)
  : Res (DataFrame V L) :=
  match getitem src col with
  | [] => Raise (MkExc KeyError "column")
  | [data] => Ok (setitem df key data)
  | _ => Raise (MkExc ValueError
                  "Cannot set a DataFrame with multiple columns to the single column")
  end.

(** [df.columns = labels]: positional relabelling, refused when the
    number of labels differs from the number of columns. *)
Definition set_columns {L K} (df : DataFrame V L) (labels : list K)
  : Res (DataFrame V K) :=
  if bool_decide (length labels = length (df_columns df))
  then Ok (MkFrame (df_index df) (zip labels (df_columns df).*2))
  else Raise (MkExc ValueError "Length mismatch").

(** [pd.MultiIndex.from_product([outer, inner])] *)
Definition from_product (outer inner : list string) : list (string * string) :=
  list_prod outer inner.

(** [pd.DataFrame(index=idx, columns=labels)]: every cell missing. *)
Definition empty_frame {L} (idx : list Z) (labels : list L) : DataFrame V L :=
  MkFrame idx ((λ l, (l, replicate (length idx) None)) <$> labels).

(** [d[k]] on a dict. *)
Definition dict_get {A} (d : gmap string A) (k : string) : Res A :=
  match d !! k with
  | Some a => Ok a
  | None => Raise (MkExc KeyError k)
  end.

(** The cell of a frame at a column label and a date (first match). *)
Definition frame_cell {L} `{EqDecision L} (df : DataFrame V L) (l : L) (d : Z)
  : Cell V :=
  match getitem df l with
  | data :: _ => cell_at (df_index df) data d
  | [] => None
  end.
End Pandas.

(** ** storage.py *)

(** The [StorageAdapter] interface: [get_path(base_url, market, instrument,
    timeframe, category, name)] and [list_factors(base_url, market,
    timeframe, category)]. *)
Record StorageAdapter : Type :=
  MkStorageAdapter {
    get_path : string → string → string → string → string → string → string;
    list_factors : string → string → string → option string → list (string * string) }.

Definition DefaultStorageAdapter : StorageAdapter :=
  {| get_path base_url market instrument timeframe category name :=
       base_url +:+ "/data/dim/" +:+ market +:+ "/instrument/" +:+ instrument
         +:+ "/" +:+ timeframe +:+ "/" +:+ name +:+ ".parquet";
     list_factors base_url market timeframe category :=
       if bool_decide (category = None ∨ category = Some "technical")
       then [("rsi_14", "technical")] else [] |}.

(** ** factors.py, signals.py and core.py *)

Record Vquant : Type :=
  MkVquant { market : string;
             base_url : string;
             timeframe : string;
             storage_adapter : StorageAdapter }.

(** [Vquant(market, base_url)] with the defaults of [__init__]. *)
Definition Vquant_init (market base_url : string) : Vquant :=
  MkVquant market base_url "1d" DefaultStorageAdapter.

Section Core.
Context {V : Type} `{!Promote V}.

(** The wide table: columns labelled [(factor, ticker)]. *)
Definition WideTable : Type := DataFrame V (string * string).

(** The two [Factor] classes.  A computed factor's transform may raise. *)
Inductive Factor : Type :=
  | StoredFactor (name category : string)
  | MkComputedFactor (name category : string)
      (fn : WideTable → Res (Series V)) (dependencies : list string).

(** [dependencies or ["ohlcv.close"]]: the default stands in for [None]
    and for the empty list. *)
Definition dependencies_or_default (dependencies : option (list string))
  : list string :=
  match dependencies with
  | Some (d :: ds) => d :: ds
  | Some [] | None => ["ohlcv.close"]
  end.

(** [ComputedFactor.__init__], [dependencies] being [None] when the
    argument is not given. *)
Definition ComputedFactor (name category : string)
    (fn : WideTable → Res (Series V)) (dependencies : option (list string))
  : Factor :=
  MkComputedFactor name category fn (dependencies_or_default dependencies).

Definition factor_name (f : Factor) : string :=
  match f with
  | StoredFactor name _ | MkComputedFactor name _ _ _ => name
  end.

Definition factor_category (f : Factor) : string :=
  match f with
  | StoredFactor _ category | MkComputedFactor _ category _ _ => category
  end.

(** [Factor.full_name] *)
Definition full_name (f : Factor) : string :=
  factor_category f +:+ "." +:+ factor_name f.

(** An element of a [List[Union[str, Factor]]] argument; [SpecOther] is
    any object that is neither. *)
Inductive FactorSpec : Type :=
  | SpecStr (s : string)
  | SpecFactor (f : Factor)
  | SpecOther.

Variable fs : gmap string (File V).
Variable vq : Vquant.

Definition path_of (ticker category name : string) : string :=
  get_path (storage_adapter vq) (base_url vq) (market vq) ticker (timeframe vq)
    category name.

Definition ohlcv_path (ticker : string) : string := path_of ticker "ohlcv" "ohlcv".

Definition ohlcv_error {A} (ticker : string) (e : Exc) : Run A :=
  raise DataLoadError ("Failed to load OHLCV for " +:+ ticker +:+ ": " +:+ exc_msg e).

(** The body of the [try] of [get_ohlcv], lines 27-28, without the dict
    update. *)
Definition read_ohlcv (cols : list string) (ticker : string)
  : Run (DataFrame V string) :=
  t <- read_parquet fs (ohlcv_path ticker) ;;
  lift (select_by_date t cols).

(** [Vquant.get_ohlcv] *)
Definition get_ohlcv (tickers cols : list string) : Run WideTable :=
  result <-
    for_each tickers
      (λ (result : gmap string (DataFrame V string)) ticker,
         try_except
           (df <- read_ohlcv cols ticker ;;
            ret (<[ticker := df]> result))
           (ohlcv_error ticker))
      ∅ ;;
  all_dates <- lift (unified_index (df_index <$> (map_to_list result).*2)) ;;
  let multi_columns := from_product cols tickers in
  aligned_data <-
    for_each tickers
      (λ (aligned_data : DataFrame V (string * string)) ticker,
         df0 <- lift (dict_get result ticker) ;;
         df <- lift (frame_reindex df0 all_dates) ;;
         for_each cols
           (λ aligned_data col,
              lift (setitem_from aligned_data (col, ticker) df col))
           aligned_data)
      (MkFrame all_dates []) ;;
  lift (set_columns aligned_data multi_columns).

(** [StoredFactor.fetch] *)
Definition StoredFactor_fetch (name category ticker : string) : Run (Series V) :=
  let path := path_of ticker category name in
  try_except
    (df <- read_parquet fs path ;;
     lift (getitem_value df))
    (λ e,
       if bool_decide (exc_kind e = FileNotFoundError)
       then raise FactorNotFoundError
              ("Factor " +:+ category +:+ "." +:+ name +:+ " not found for "
                 +:+ ticker +:+ " at " +:+ path)
       else raise DataLoadError
              ("Failed to load " +:+ category +:+ "." +:+ name +:+ " for "
                 +:+ ticker +:+ ": " +:+ exc_msg e)).

(** The string-or-object resolution of [get_factors], lines 64-71. *)
Definition resolve_spec (f : FactorSpec) : Res Factor :=
  match f with
  | SpecStr s =>
      if has_dot s
      then match split_dot_1 s with
           | [category; name] => Ok (StoredFactor name category)
           | _ => Raise (MkExc ValueError "not enough values to unpack")
           end
      else Ok (StoredFactor s "technical")
  | SpecFactor fac => Ok fac
  | SpecOther => Raise (MkExc ValueError "Invalid factor specification")
  end.

Fixpoint resolve_factors (factors : list FactorSpec) : Res (list Factor) :=
  match factors with
  | [] => Ok []
  | f :: rest =>
      res_bind (resolve_spec f) (λ r,
      res_bind (resolve_factors rest) (λ rs, Ok (r :: rs)))
  end.

(** [Factor.fetch], dispatched on the class; [get_factors_rec] is the
    orchestrator's [get_factors] that [ComputedFactor.fetch] calls back
    with its dependency strings. *)
Definition fetch (get_factors_rec : list string → list FactorSpec → Run WideTable)
    (f : Factor) (ticker : string) : Run (Series V) :=
  match f with
  | StoredFactor name category => StoredFactor_fetch name category ticker
  | MkComputedFactor name category fn dependencies =>
      dep_data <- get_factors_rec [ticker] (SpecStr <$> dependencies) ;;
      _ <- emit (EvTransform (category +:+ "." +:+ name) ticker) ;;
      lift (fn dep_data)
  end.

(** The body of the [try] of the base load of [get_factors], line 87. *)
Definition read_base (ticker : string) : Run (DataFrame V string) :=
  t <- read_parquet fs (ohlcv_path ticker) ;;
  lift (set_index_date t).

(** The body of [Vquant.get_factors]. *)
Definition get_factors_body
    (get_factors_rec : list string → list FactorSpec → Run WideTable)
    (tickers : list string) (factors : list FactorSpec) : Run WideTable :=
  resolved_factors <- lift (resolve_factors factors) ;;
  let factor_names := full_name <$> resolved_factors in
  let multi_columns := from_product factor_names tickers in
  base_data <-
    for_each tickers
      (λ (base_data : gmap string (DataFrame V string)) ticker,
         try_except
           (df <- read_base ticker ;;
            ret (<[ticker := df]> base_data))
           (ohlcv_error ticker))
      ∅ ;;
  all_dates <- lift (unified_index (df_index <$> (map_to_list base_data).*2)) ;;
  for_each tickers
    (λ (result_df : WideTable) ticker,
       df0 <- lift (dict_get base_data ticker) ;;
       base_df <- lift (frame_reindex df0 all_dates) ;;
       for_each resolved_factors
         (λ (result_df : WideTable) factor,
            try_except
              (series <- fetch get_factors_rec factor ticker ;;
               aligned <- lift (series_reindex series all_dates) ;;
               lift (setitem_series result_df (full_name factor, ticker) aligned))
              (λ e,
                 raise FactorNotFoundError
                   ("Failed to compute factor " +:+ full_name factor +:+ " for "
                      +:+ ticker +:+ ": " +:+ exc_msg e)))
         result_df)
    (empty_frame all_dates multi_columns).

(** [get_factors] calls itself through [ComputedFactor.fetch]; [depth]
    bounds the nesting of calls, as the interpreter's recursion limit
    does. *)
Fixpoint get_factors_fuel (depth : nat) (tickers : list string)
    (factors : list FactorSpec) : Run WideTable :=
  match depth with
  | O => raise RecursionError "maximum recursion depth exceeded"
  | S depth' => get_factors_body (get_factors_fuel depth') tickers factors
  end.

(** [Vquant.get_factors]: dependencies are strings and resolve to stored
    factors, so calls nest twice at most ([get_factors_fuel_enough]). *)
Definition get_factors (tickers : list string) (factors : list FactorSpec)
  : Run WideTable :=
  get_factors_fuel 2 tickers factors.

(** [factor.fetch(vquant, ticker)]: the [get_factors] that
    [ComputedFactor.fetch] calls is the orchestrator's. *)
Definition Factor_fetch (f : Factor) (ticker : string) : Run (Series V) :=
  fetch get_factors f ticker.

(** A [Signal]: name, factor list as stored by [__init__], condition. *)
Record Signal : Type :=
  MkSignal { sig_name : string;
             sig_factors : list FactorSpec;
             sig_condition : WideTable → Res (Series V) }.

(** One element of the list comprehension of [Signal.__init__]:
    [StoredFactor(f.split(".", 1)[1], f.split(".", 1)[0]) if
    isinstance(f, str) else f]. *)
Definition signal_factor (f : FactorSpec) : Res FactorSpec :=
  match f with
  | SpecStr s =>
      res_bind (py_index (split_dot_1 s) 1) (λ name,
      res_bind (py_index (split_dot_1 s) 0) (λ category,
      Ok (SpecFactor (StoredFactor name category))))
  | other => Ok other
  end.

Fixpoint signal_factors (factors : list FactorSpec) : Res (list FactorSpec) :=
  match factors with
  | [] => Ok []
  | f :: rest =>
      res_bind (signal_factor f) (λ r,
      res_bind (signal_factors rest) (λ rs, Ok (r :: rs)))
  end.

(** The list that [Signal.__init__] stores for dotted strings and factor
    objects. *)
Definition stored_spec (f : FactorSpec) : FactorSpec :=
  match f with
  | SpecStr s =>
      match partition_dot s with
      | Some (category, name) => SpecFactor (StoredFactor name category)
      | None => f
      end
  | _ => f
  end.

(** [Signal.__init__] *)
Definition Signal_init (name : string) (factors : list FactorSpec)
    (condition : WideTable → Res (Series V)) : Res Signal :=
  res_bind (signal_factors factors) (λ fl, Ok (MkSignal name fl condition)).

(** [Signal.full_name] *)
Definition Signal_full_name (s : Signal) : string := "signal." +:+ sig_name s.
End Core.

Arguments Factor V : clear implicits.
Arguments FactorSpec V : clear implicits.
Arguments Signal V : clear implicits.
Arguments WideTable V : clear implicits.

(** ** The rest of signals.py and core.py *)

Section Facade.
Context {V : Type} `{!Promote V}.
Variable fs : gmap string (File V).
Variable vq : Vquant.

(** [f.full_name] on an element of [Signal.factors]: only a factor object
    has the attribute; the [AttributeError] of any other object is an
    [OtherException] here. *)
Definition spec_full_name (f : FactorSpec V) : Res string :=
  match f with
  | SpecFactor fac => Ok (full_name fac)
  | SpecStr _ | SpecOther =>
      Raise (MkExc OtherException "object has no attribute 'full_name'")
  end.

(** [[f.full_name for f in self.factors]] *)
Fixpoint spec_full_names (factors : list (FactorSpec V)) : Res (list string) :=
  match factors with
  | [] => Ok []
  | f :: rest =>
      res_bind (spec_full_name f) (λ n,
      res_bind (spec_full_names rest) (λ ns, Ok (n :: ns)))
  end.

(** [Signal.evaluate]: the factors are handed to [get_factors] by full
    name. *)
Definition Signal_evaluate (s : Signal V) (ticker : string) : Run (Series V) :=
  names <- lift (spec_full_names (sig_factors s)) ;;
  factor_data <- get_factors fs vq [ticker] (SpecStr <$> names) ;;
  lift (sig_condition s factor_data).

(** [Vquant.compute_factor] *)
Definition compute_factor (name category : string)
    (fn : WideTable V → Res (Series V)) (dependencies : option (list string))
  : Factor V :=
  ComputedFactor name category fn dependencies.

(** [Vquant.create_signal] *)
Definition create_signal (name : string) (factors : list (FactorSpec V))
    (condition : WideTable V → Res (Series V)) : Res (Signal V) :=
  Signal_init name factors condition.

(** [Vquant.list_factors] *)
Definition Vquant_list_factors (category : option string) : list (string * string) :=
  list_factors (storage_adapter vq) (base_url vq) (market vq) (timeframe vq) category.

(** The value that the OHLCV resource of a ticker holds for a field at a
    date: the missing marker when the resource has no such date. *)
Definition ohlcv_cell (ticker col : string) (d : Z) : Cell V :=
  match fs !! ohlcv_path vq ticker with
  | Some (Parquet t) =>
      cell_at (default [] (pq_date t)) (default [] (column_of (pq_columns t) col)) d
  | _ => None
  end.

(** The value of a series at an index label. *)
Definition series_cell (s : Series V) (d : Z) : Cell V := cell_at s.*1 s.*2 d.

(** The dates of the OHLCV resource of a ticker. *)
Definition ohlcv_dates (ticker : string) : list Z :=
  match fs !! ohlcv_path vq ticker with
  | Some (Parquet t) => default [] (pq_date t)
  | _ => []
  end.

(** What a stored cell is in a table on the row index [index], for data
    that has the labels [labels]: the cell itself when the data has every
    label of the index, and otherwise the cell after the promotion of its
    column, which then holds a missing marker. *)
Definition aligned_cell (index labels : list Z) (stored : Cell V) : Cell V :=
  if bool_decide (Forall (λ d, d ∈ labels) index) then stored
  else promote <$> stored.

(** The full name that an element of a factor list asks for: that of a
    factor object; a string with a dot, as it is; a bare string, in the
    category "technical". *)
Definition requested_name (f : FactorSpec V) : string :=
  match f with
  | SpecStr s => if has_dot s then s else "technical." +:+ s
  | SpecFactor fac => full_name fac
  | SpecOther => ""
  end.

(** The resource that a dependency string names for a ticker: category
    before the first dot and name after it, category "technical" for a
    bare string. *)
Definition dependency_path (ticker dep : string) : string :=
  match partition_dot dep with
  | Some (category, name) => path_of vq ticker category name
  | None => path_of vq ticker "technical" dep
  end.

(** The series that a readable resource with a "value" column stores: the
    column on the row labels of the table. *)
Definition stored_series (path : string) : option (Series V) :=
  match fs !! path with
  | Some (Parquet t) => zip (pq_index t) <$> column_of (pq_columns t) "value"
  | _ => None
  end.
End Facade.

(** ** The local incremental-merge storage *)

Module FactorStorage.
Section Storage.
Context {V : Type}.

(** Modelled from the spec: the stored record set of the local
    read-write adapter ([DuckDBFactorStorage], which
    [tests/storage_test.py] imports from [vquant.storage] and which no
    source file defines).  "A columnar file ... always includes a [date]
    column plus one or more value columns": the value column names, and
    the rows as a date with one cell per column. *)
Record RecordSet : Type :=
  MkRecordSet { rs_header : list string; rs_rows : list (Z * list (Cell V)) }.

Definition rs_dates (t : RecordSet) : list Z := (rs_rows t).*1.

(** The cell of a row under a column name, NaN when the table has no
    such column. *)
Fixpoint row_cell (header : list string) (row : list (Cell V)) (c : string)
  : Cell V :=
  match header, row with
  | h :: header', x :: row' => if decide (h = c) then x else row_cell header' row' c
  | _, _ => None
  end.

(** The first row with a given date. *)
Definition find_row (rows : list (Z * list (Cell V))) (d : Z)
  : option (list (Cell V)) :=
  snd <$> List.find (λ p, bool_decide (p.1 = d)) rows.

(** Modelled from the spec: the columns of an upserted file are those
    of the existing file followed by the columns that only [newData]
    carries. *)
Definition upsert_header (existing newData : RecordSet) : list string :=
  rs_header existing
    ++ filter (λ c, c ∉ rs_header existing) (rs_header newData).

(** Modelled from the spec: "rows with matching dates in newData
    override the existing value for overlapping columns; dates present
    only in the existing file are kept". *)
Definition upsert_row (existing newData : RecordSet) (p : Z * list (Cell V))
  : Z * list (Cell V) :=
  (p.1,
   (λ c, match find_row (rs_rows newData) p.1 with
         | Some nr =>
             if bool_decide (c ∈ rs_header newData)
             then row_cell (rs_header newData) nr c
             else row_cell (rs_header existing) p.2 c
         | None => row_cell (rs_header existing) p.2 c
         end) <$> upsert_header existing newData).

(** Modelled from the spec: "dates present only in newData are
    appended"; such a row has no value in the columns that only the
    existing file has. *)
Definition append_row (existing newData : RecordSet) (p : Z * list (Cell V))
  : Z * list (Cell V) :=
  (p.1,
   (λ c, if bool_decide (c ∈ rs_header newData)
         then row_cell (rs_header newData) p.2 c
         else None) <$> upsert_header existing newData).

(** Modelled from the spec: the upsert of [newData] into the existing
    content on the [date] key. *)
Definition upsert (existing newData : RecordSet) : RecordSet :=
  MkRecordSet (upsert_header existing newData)
    ((upsert_row existing newData <$> rs_rows existing)
       ++ (append_row existing newData
             <$> filter (λ p, p.1 ∉ rs_dates existing)
                   (rs_rows newData))).

(** Modelled from the spec: "the merged result is deduplicated": one
    row per date, the first. *)
Fixpoint dedup_rows (rows : list (Z * list (Cell V))) : list (Z * list (Cell V)) :=
  match rows with
  | [] => []
  | p :: rest => p :: filter (λ q, q.1 ≠ p.1) (dedup_rows rest)
  end.

Fixpoint insert_row (p : Z * list (Cell V)) (rows : list (Z * list (Cell V)))
  : list (Z * list (Cell V)) :=
  match rows with
  | [] => [p]
  | q :: rest => if decide (p.1 ≤ q.1)%Z then p :: q :: rest else q :: insert_row p rest
  end.

(** Modelled from the spec: "sorted ascending by date". *)
Fixpoint sort_rows (rows : list (Z * list (Cell V))) : list (Z * list (Cell V)) :=
  match rows with
  | [] => []
  | p :: rest => insert_row p (sort_rows rest)
  end.

(** Rows in ascending order of date. *)
Definition date_le (p q : Z * list (Cell V)) : Prop := (p.1 ≤ q.1)%Z.

(** Modelled from the spec: the content written over an existing file. *)
Definition merged (existing newData : RecordSet) : RecordSet :=
  let u := upsert existing newData in
  MkRecordSet (rs_header u) (sort_rows (dedup_rows (rs_rows u))).

(** The cell of the merged content at a date and a column, in the spec's
    words: [newData]'s value where [newData] has the date and the column
    ("rows with matching dates in newData override the existing value",
    "dates present only in newData are appended"), the existing value
    otherwise ("dates present only in the existing file are kept"). *)
Definition merged_cell (existing newData : RecordSet) (d : Z) (c : string)
  : Cell V :=
  let kept :=
    match find_row (rs_rows existing) d with
    | Some er => row_cell (rs_header existing) er c
    | None => None
    end in
  match find_row (rs_rows newData) d with
  | Some nr =>
      if bool_decide (c ∈ rs_header newData)
      then row_cell (rs_header newData) nr c
      else kept
  | None => kept
  end.

(** Modelled from the spec: [_get_file_path], one file per (market,
    instrument, timeframe, category), as [test_get_file_path] expects
    it. *)
Definition get_file_path (base_path market instrument timeframe category : string)
  : string :=
  base_path +:+ "/" +:+ market +:+ "/instrument/" +:+ instrument +:+ "/"
    +:+ timeframe +:+ "/" +:+ category +:+ ".parquet".

(** Modelled from the spec: [save_factor(newData, market, instrument,
    timeframe, category, columnName)] on the files of the store: "if the
    target resource does not exist, newData ... is written as the initial
    content.  If it exists, the existing content is loaded, upserted with
    newData on the date key ..., the merged result is deduplicated and
    sorted ascending by date, then the entire file is rewritten." *)
Definition save_factor (base_path : string) (files : gmap string RecordSet)
    (newData : RecordSet) (market instrument timeframe category column_name : string)
  : gmap string RecordSet :=
  let file_path := get_file_path base_path market instrument timeframe category in
  match files !! file_path with
  | None => <[file_path := newData]> files
  | Some existing => <[file_path := merged existing newData]> files
  end.
End Storage.
Arguments RecordSet V : clear implicits.
End FactorStorage.

(** ** Integer-valued columns *)

(** What the promotion of an [int64] column to [float64] makes of an
    integer: itself up to 53 bits, beyond that the nearest integer with 53
    significant bits, ties to the even one. *)
Definition float64_round (z : Z) : Z :=
  let a := Z.abs z in
  if (a <? 2 ^ 53)%Z then z
  else
    let e := (Z.log2 a - 52)%Z in
    let q := (a / 2 ^ e)%Z in
    let r := (a mod 2 ^ e)%Z in
    let half := (2 ^ (e - 1))%Z in
    let q' := if (r <? half)%Z then q
              else if (r =? half)%Z && Z.even q then q
              else (q + 1)%Z in
    (Z.sgn z * (q' * 2 ^ e))%Z.

#[global] Instance Z_promote : Promote Z := float64_round.

(** ** Example stores *)

Module Examples.
Definition vq0 : Vquant := Vquant_init "m" "u".

(** OHLCV of ticker A on dates 1 and 2, of ticker B on dates 2 and 3. *)
Definition tblA : ParquetTable Z :=
  MkParquet [0; 1]%Z (Some [1; 2]%Z)
    [("open", [Some 10; Some 11]%Z); ("close", [Some 12; Some 13]%Z)].

Definition tblB : ParquetTable Z :=
  MkParquet [0; 1]%Z (Some [2; 3]%Z)
    [("open", [Some 20; Some 21]%Z); ("close", [Some 22; Some 23]%Z)].

(** A stored factor of ticker A, indexed by the dates 2 and 3. *)
Definition facA : ParquetTable Z :=
  MkParquet [2; 3]%Z None [("value", [Some 70; Some 71]%Z)].

(** Both tickers have OHLCV; A has a readable [technical.rsi_14], B an
    unreadable one. *)
Definition fs0 : gmap string (File Z) :=
  <[ohlcv_path vq0 "A" := Parquet tblA]>
    (<[ohlcv_path vq0 "B" := Parquet tblB]>
       (<[path_of vq0 "A" "technical" "rsi_14" := Parquet facA]>
          (<[path_of vq0 "B" "technical" "rsi_14" := Unreadable "bad magic"]> ∅))).

(** A stored factor of ticker B, indexed by the dates 2 and 3. *)
Definition facB : ParquetTable Z :=
  MkParquet [2; 3]%Z None [("value", [Some 80; Some 81]%Z)].

(** As [fs0], with a readable [technical.rsi_14] for B as well. *)
Definition fs1 : gmap string (File Z) :=
  <[path_of vq0 "B" "technical" "rsi_14" := Parquet facB]> fs0.

(** OHLCV of a ticker G on date 1, with an [int64] close of 2^53 + 1. *)
Definition tblG : ParquetTable Z :=
  MkParquet [0]%Z (Some [1]%Z) [("close", [Some 9007199254740993]%Z)].

(** A stored factor of ticker G on date 1, with the value 2^53 + 1. *)
Definition facG : ParquetTable Z :=
  MkParquet [1]%Z None [("value", [Some 9007199254740993]%Z)].

Definition fs2 : gmap string (File Z) :=
  <[ohlcv_path vq0 "G" := Parquet tblG]>
    (<[path_of vq0 "G" "technical" "rsi_14" := Parquet facG]> fs0).

(** A transform: the first column of the dependency table. *)
Definition first_column (df : WideTable Z) : Res (Series Z) :=
  match df_columns df with
  | (_, data) :: _ => Ok (zip (df_index df) data)
  | [] => Raise (MkExc IndexError "single positional indexer is out-of-bounds")
  end.

(** The files of [test_save_factor_existing_file], values in tenths. *)
Definition initial_df : FactorStorage.RecordSet Z :=
  FactorStorage.MkRecordSet ["volatility_20"]
    [(20230101, [Some 5]); (20230102, [Some 6])]%Z.

Definition new_factor_df : FactorStorage.RecordSet Z :=
  FactorStorage.MkRecordSet ["volatility_20"]
    [(20230102, [Some 7]); (20230103, [Some 8])]%Z.

Definition expected_df : FactorStorage.RecordSet Z :=
  FactorStorage.MkRecordSet ["volatility_20"]
    [(20230101, [Some 5]); (20230102, [Some 7]); (20230103, [Some 8])]%Z.

Definition test_files : gmap string (FactorStorage.RecordSet Z) :=
  {[ FactorStorage.get_file_path "base" "stocks_vn" "AAA" "1d" "technical"
     := initial_df ]}.
End Examples.

(** * Properties *)

(** ** The effect monad *)

Lemma outcome_bind_Ok {A B} (m : Run A) (f : A → Run B) (b : B) :
  outcome (x <- m ;; f x) = Ok b →
  ∃ a, outcome m = Ok a ∧ outcome (f a) = Ok b.
Proof.
  unfold bind. destruct (outcome m) as [a|e]; simpl; [eauto | discriminate].
Qed.

Lemma bind_Ok {A B} (m : Run A) (f : A → Run B) (a : A) :
  outcome m = Ok a →
  (x <- m ;; f x) = MkRun (trace m ++ trace (f a)) (outcome (f a)).
Proof. unfold bind. by intros ->. Qed.

Lemma bind_Raise {A B} (m : Run A) (f : A → Run B) (e : Exc) :
  outcome m = Raise e →
  (x <- m ;; f x) = MkRun (trace m) (Raise e).
Proof. unfold bind. by intros ->. Qed.

Lemma bind_MkRun_Ok {A B} (tr : list Event) (a : A) (f : A → Run B) :
  (x <- MkRun tr (Ok a) ;; f x) = MkRun (tr ++ trace (f a)) (outcome (f a)).
Proof. done. Qed.

Lemma bind_MkRun_Raise {A B} (tr : list Event) (e : Exc) (f : A → Run B) :
  (x <- MkRun tr (Raise e) ;; f x) = MkRun tr (Raise e).
Proof. done. Qed.

Lemma bind_lift_Ok {A B} (a : A) (f : A → Run B) :
  (x <- lift (Ok a) ;; f x) = f a.
Proof. unfold bind, lift. simpl. by destruct (f a). Qed.

Lemma bind_ret {A B} (a : A) (f : A → Run B) : (x <- ret a ;; f x) = f a.
Proof. apply bind_lift_Ok. Qed.

Lemma res_bind_Ok {A B} (r : Res A) (f : A → Res B) (b : B) :
  res_bind r f = Ok b → ∃ a, r = Ok a ∧ f a = Ok b.
Proof. destruct r; simpl; [eauto | discriminate]. Qed.

Lemma for_each_ext {A S} (l : list A) (body1 body2 : S → A → Run S) (s : S) :
  (∀ s x, x ∈ l → body1 s x = body2 s x) →
  for_each l body1 s = for_each l body2 s.
Proof.
  revert s. induction l as [|x l IH]; intros s Hext; [done|].
  simpl. rewrite (Hext s x) by left.
  unfold bind. destruct (outcome (body2 s x)); [|done].
  rewrite IH; [done|]. intros. apply Hext. by right.
Qed.

(** A property kept by every successful iteration holds after the loop. *)
Lemma for_each_inv {A S} (P : S → Prop) (l : list A) (body : S → A → Run S)
    (s r : S) :
  (∀ s x s', x ∈ l → P s → outcome (body s x) = Ok s' → P s') →
  P s → outcome (for_each l body s) = Ok r → P r.
Proof.
  revert s. induction l as [|x l IH]; intros s Hstep Hs Hr.
  - simpl in Hr. by injection Hr as <-.
  - simpl in Hr. apply outcome_bind_Ok in Hr as (s' & Hb & Hr).
    eapply IH; [| |exact Hr].
    + intros ? ? ? ?. apply Hstep. by right.
    + eapply Hstep; [left | exact Hs | exact Hb].
Qed.

(** ** Factor strings *)

Lemma partition_dot_Some (s a b : string) :
  partition_dot s = Some (a, b) →
  s = a +:+ "." +:+ b ∧ partition_dot a = None.
Proof.
  revert a. induction s as [|c s IH]; intros a; simpl; [discriminate|].
  destruct (Ascii.eqb_spec c "."%char) as [->|Hc].
  - intros [= <- <-]. done.
  - destruct (partition_dot s) as [[a' b']|]; [|discriminate].
    intros [= <- <-]. destruct (IH a' eq_refl) as [-> Ha'].
    split; [done|]. simpl.
    destruct (Ascii.eqb_spec c "."%char); [done|]. by rewrite Ha'.
Qed.

Lemma partition_dot_app (a b : string) :
  partition_dot a = None → partition_dot (a +:+ "." +:+ b) = Some (a, b).
Proof.
  induction a as [|c a IH]; simpl; [done|].
  destruct (Ascii.eqb c "."%char); [discriminate|].
  destruct (partition_dot a) as [[? ?]|] eqn:E; [discriminate|].
  intros _. by rewrite IH.
Qed.

Section StringSpecs.
Context {V : Type}.
Implicit Types (f : FactorSpec V) (factors : list (FactorSpec V)).

(** C6. A factor string with a dot resolves to the stored factor whose
    category is the text before the first dot and whose name is the text
    after it, and the full name of that factor is the string again; a
    string without a dot resolves to category "technical" with the string
    as name. *)
Theorem factor_string_resolution (s : string) :
  (has_dot s = true →
     ∃ category name,
       s = category +:+ "." +:+ name ∧ has_dot category = false ∧
       split_dot_1 s = [category; name] ∧
       resolve_spec (V:=V) (SpecStr s) = Ok (StoredFactor name category) ∧
       full_name (V:=V) (StoredFactor name category) = s) ∧
  (has_dot s = false →
     resolve_spec (V:=V) (SpecStr s) = Ok (StoredFactor s "technical") ∧
     full_name (V:=V) (StoredFactor s "technical") = "technical." +:+ s).
Proof.
  unfold resolve_spec, has_dot, split_dot_1, full_name. split.
  - destruct (partition_dot s) as [[a b]|] eqn:E; [|discriminate].
    intros _. destruct (partition_dot_Some _ _ _ E) as [Hs Ha].
    exists a, b. rewrite Ha. simpl. by rewrite <- Hs.
  - destruct (partition_dot s) as [[a b]|] eqn:E; [discriminate|]. done.
Qed.

Lemma signal_factors_Raise factors e :
  signal_factors factors = Raise e → exc_kind e = IndexError.
Proof.
  induction factors as [|f factors IH]; simpl; [discriminate|].
  destruct f as [s| |]; simpl.
  - unfold split_dot_1, py_index.
    destruct (partition_dot s) as [[a b]|]; simpl.
    + destruct (signal_factors factors); simpl; [discriminate|].
      intros [= <-]. by apply IH.
    + by intros [= <-].
  - destruct (signal_factors factors); simpl; [discriminate|].
    intros [= <-]. by apply IH.
  - destruct (signal_factors factors); simpl; [discriminate|].
    intros [= <-]. by apply IH.
Qed.

Lemma signal_factors_Ok factors fl :
  signal_factors factors = Ok fl →
  ∀ s, SpecStr s ∈ factors → has_dot s = true.
Proof.
  revert fl. induction factors as [|f factors IH]; intros fl; simpl.
  - intros _ s Hs. by apply elem_of_nil in Hs.
  - intros H. apply res_bind_Ok in H as (r & Hr & H).
    apply res_bind_Ok in H as (rs & Hrs & _).
    intros s [<-|Hs]%elem_of_cons; [|by eapply IH].
    simpl in Hr. unfold split_dot_1, py_index, has_dot in *.
    by destruct (partition_dot s) as [[a b]|].
Qed.

Lemma signal_factors_dotted factors :
  (∀ s, SpecStr s ∈ factors → has_dot s = true) →
  signal_factors factors = Ok (stored_spec <$> factors).
Proof.
  induction factors as [|f factors IH]; intros Hd; [done|].
  simpl. rewrite IH by (intros; apply Hd; by right).
  destruct f as [s| |]; simpl; try done.
  specialize (Hd s ltac:(left)). unfold has_dot, split_dot_1, py_index in *.
  by destruct (partition_dot s) as [[a b]|].
Qed.

(** C10. A string without a dot among the factors of a signal makes the
    constructor raise [IndexError], where the orchestrator resolves the
    same string to category "technical"; a constructor call that
    succeeds had dotted strings only, and a list of dotted strings and
    factor objects is accepted, a dotted string becoming the stored
    factor of its two parts. *)
Theorem Signal_init_bare_string (name : string) factors
    (condition : WideTable V → Res (Series V)) :
  (∀ s, SpecStr s ∈ factors → has_dot s = false →
     (∃ msg, Signal_init name factors condition = Raise (MkExc IndexError msg)) ∧
     resolve_spec (V:=V) (SpecStr s) = Ok (StoredFactor s "technical")) ∧
  (∀ sig, Signal_init name factors condition = Ok sig →
     ∀ s, SpecStr s ∈ factors → has_dot s = true) ∧
  ((∀ s, SpecStr s ∈ factors → has_dot s = true) →
     Signal_init name factors condition
     = Ok (MkSignal name (stored_spec <$> factors) condition)).
Proof.
  unfold Signal_init. split; [|split].
  - intros s Hin Hs. split.
    + destruct (signal_factors factors) as [fl|[k msg]] eqn:E.
      * pose proof (signal_factors_Ok _ _ E s Hin). congruence.
      * apply signal_factors_Raise in E as Hk. simpl in Hk. subst k.
        simpl. eauto.
    + unfold resolve_spec. by rewrite Hs.
  - intros sig H. apply res_bind_Ok in H as (fl & Hfl & _).
    by eapply signal_factors_Ok.
  - intros Hd. by rewrite signal_factors_dotted.
Qed.
End StringSpecs.

(** ** Dates: [unique], [sorted] and the unified index *)

Lemma elem_of_unique (l : list Z) (d : Z) : d ∈ unique l ↔ d ∈ l.
Proof.
  induction l as [|x l IH]; simpl; [done|].
  rewrite !elem_of_cons, list_elem_of_filter, IH.
  destruct (decide (d = x)); intuition congruence.
Qed.

Lemma NoDup_unique (l : list Z) : NoDup (unique l).
Proof.
  induction l as [|x l IH]; simpl; [constructor|].
  constructor.
  - rewrite list_elem_of_filter. tauto.
  - by apply NoDup_filter.
Qed.

Lemma Sorted_le_NoDup_lt (l : list Z) :
  Sorted Z.le l → NoDup l → StronglySorted Z.lt l.
Proof.
  intros Hs%Sorted_StronglySorted Hn; [|apply _].
  induction Hs as [|x l Hl IH Hx]; [constructor|].
  apply NoDup_cons in Hn as [Hnx Hn]. constructor; [by apply IH|].
  rewrite Forall_forall in Hx |- *. intros y Hy.
  specialize (Hx y Hy). assert (x ≠ y) by (intros ->; done). lia.
Qed.

Lemma sorted_unique_spec (l : list Z) :
  StronglySorted Z.lt (sorted (unique l)) ∧ ∀ d, d ∈ sorted (unique l) ↔ d ∈ l.
Proof.
  unfold sorted. split.
  - apply Sorted_le_NoDup_lt; [apply Sorted_merge_sort; apply _|].
    rewrite merge_sort_Permutation. apply NoDup_unique.
  - intros d. by rewrite merge_sort_Permutation, elem_of_unique.
Qed.

(** The unified index is strictly ascending and holds exactly the dates of
    the indices it is made of. *)
Lemma unified_index_spec (idxs : list (list Z)) (all : list Z) :
  unified_index idxs = Ok all →
  idxs ≠ [] ∧ StronglySorted Z.lt all ∧
  ∀ d, d ∈ all ↔ ∃ idx, idx ∈ idxs ∧ d ∈ idx.
Proof.
  unfold unified_index, pd_concat. destruct idxs as [|i idxs]; simpl; [discriminate|].
  intros [= <-]. split; [done|].
  destruct (sorted_unique_spec (i ++ List.concat idxs)) as [Hs Hm].
  split; [exact Hs|]. intros d. rewrite Hm.
  change (i ++ List.concat idxs) with (List.concat (i :: idxs)).
  rewrite list_elem_of_In, in_concat.
  setoid_rewrite <- list_elem_of_In. firstorder.
Qed.

Lemma unified_index_nil : unified_index [] = Raise (MkExc ValueError "No objects to concatenate").
Proof. done. Qed.

Lemma Sorted_le_NoDup_lt_inv (l : list Z) : StronglySorted Z.lt l → NoDup l.
Proof.
  induction 1 as [|x l Hl IH Hx]; [constructor|].
  constructor; [|done]. intros Hin. rewrite Forall_forall in Hx.
  specialize (Hx x Hin). lia.
Qed.

(** A strictly ascending list is determined by its elements. *)
Lemma StronglySorted_lt_unique (l1 l2 : list Z) :
  StronglySorted Z.lt l1 → StronglySorted Z.lt l2 →
  (∀ d, d ∈ l1 ↔ d ∈ l2) → l1 = l2.
Proof.
  intros H1 H2 Hm.
  assert (∀ l, StronglySorted Z.lt l → NoDup l ∧ StronglySorted Z.le l) as Haux.
  { clear. induction 1 as [|x l Hl [IHn IHs] Hx]; [split; constructor|].
    split.
    - constructor; [|done]. intros Hin. rewrite Forall_forall in Hx.
      specialize (Hx x Hin). lia.
    - constructor; [done|]. eapply Forall_impl; [exact Hx|]. simpl. lia. }
  destruct (Haux _ H1) as [Hn1 Hs1], (Haux _ H2) as [Hn2 Hs2].
  eapply (StronglySorted_unique Z.le); [done..|].
  by apply NoDup_Permutation.
Qed.

(** ** The loading loops and [get_ohlcv] *)

Section Orchestrator.
Context {V : Type} `{!Promote V}.
Variable fs : gmap string (File V).
Variable vq : Vquant.

Implicit Types (tickers cols : list string) (load : string → Run (DataFrame V string)).

(** One iteration of the loading loops of [get_ohlcv] and [get_factors]. *)
Local Abbreviation load_step load :=
  (λ (result : gmap string (DataFrame V string)) (ticker : string),
     try_except (df <- load ticker ;; ret (<[ticker := df]> result))
       (ohlcv_error ticker)).

(** The entry of the loaded dict for a ticker. *)
Local Abbreviation loaded load t :=
  (match outcome (load t) with Ok df => Some df | Raise _ => None end).

Lemma load_step_Ok load result t df :
  outcome (load t) = Ok df →
  load_step load result t = MkRun (trace (load t)) (Ok (<[t := df]> result)).
Proof.
  intros H. unfold try_except, bind. rewrite H. simpl. by rewrite app_nil_r.
Qed.

Lemma load_step_Raise load result t e :
  outcome (load t) = Raise e →
  load_step load result t
  = MkRun (trace (load t))
      (Raise (MkExc DataLoadError
                ("Failed to load OHLCV for " +:+ t +:+ ": " +:+ exc_msg e))).
Proof.
  intros H. unfold try_except, bind. rewrite H. simpl. by rewrite app_nil_r.
Qed.

(** The loading loop either loads every ticker, in order, or stops at
    the first ticker that fails to load with a [DataLoadError] naming
    it. *)
Lemma load_loop_spec load tickers acc :
  let r := for_each tickers (load_step load) acc in
  (∃ result,
      outcome r = Ok result ∧
      Forall (λ t, ∃ df, outcome (load t) = Ok df) tickers ∧
      trace r = List.concat ((λ t, trace (load t)) <$> tickers) ∧
      ∀ t, result !! t = if decide (t ∈ tickers) then loaded load t else acc !! t)
  ∨ (∃ l1 t l2 e,
      tickers = l1 ++ t :: l2 ∧
      Forall (λ t', ∃ df, outcome (load t') = Ok df) l1 ∧
      outcome (load t) = Raise e ∧
      outcome r = Raise (MkExc DataLoadError
                           ("Failed to load OHLCV for " +:+ t +:+ ": " +:+ exc_msg e)) ∧
      trace r = List.concat ((λ t, trace (load t)) <$> l1) ++ trace (load t)).
Proof.
  revert acc. induction tickers as [|x l IH]; intros acc r.
  - left. exists acc. subst r. simpl. split_and!; [done|constructor|done|].
    intros t. destruct (decide (t ∈ [])) as [Hin|]; [|done].
    by apply elem_of_nil in Hin.
  - subst r. simpl. destruct (outcome (load x)) as [df|e] eqn:Hx.
    + rewrite (load_step_Ok _ _ _ _ Hx), bind_MkRun_Ok. cbn [outcome trace].
      destruct (IH (<[x := df]> acc)) as
        [(result & Hr & Hall & Htr & Hm)|(l1 & t & l2 & e & -> & Hall & Ht & Hr & Htr)].
      * left. exists result. rewrite Hr, Htr.
        split_and!; [done|constructor; eauto|done|].
        intros t. rewrite Hm.
        destruct (decide (t ∈ l)) as [Hin|Hnin].
        -- rewrite decide_True by (by right). done.
        -- destruct (decide (t = x)) as [->|Hne].
           ++ rewrite decide_True by left. by rewrite lookup_insert_eq, Hx.
           ++ rewrite decide_False by (rewrite elem_of_cons; tauto).
              by rewrite lookup_insert_ne.
      * right. exists (x :: l1), t, l2, e. rewrite Hr, Htr.
        split_and!; [done|constructor; eauto|done|done|by rewrite app_assoc].
    + right. exists [], x, l, e.
      rewrite (load_step_Raise _ _ _ _ Hx), bind_MkRun_Raise. split_and!; [done|constructor|done|done|done].
Qed.

(** What a successful OHLCV read says about the store. *)
Lemma read_parquet_Ok path t :
  outcome (read_parquet fs path) = Ok t ↔ fs !! path = Some (Parquet t).
Proof.
  unfold read_parquet, bind, emit, raise, ret. simpl.
  destruct (fs !! path) as [[msg|t']|]; simpl; naive_solver.
Qed.

Lemma read_parquet_trace path : trace (read_parquet fs path) = [EvRead path].
Proof.
  unfold read_parquet, bind, emit, raise, ret. simpl.
  by destruct (fs !! path) as [[msg|t']|].
Qed.

Lemma read_parquet_missing path :
  fs !! path = None →
  outcome (read_parquet fs path)
  = Raise (MkExc FileNotFoundError ("No such file or directory: " +:+ path)).
Proof. intros H. unfold read_parquet, bind, emit, raise. simpl. by rewrite H. Qed.

Lemma read_ohlcv_trace cols t : trace (read_ohlcv fs vq cols t) = [EvRead (ohlcv_path vq t)].
Proof.
  unfold read_ohlcv, bind, lift. rewrite read_parquet_trace.
  by destruct (outcome (read_parquet fs (ohlcv_path vq t))).
Qed.

Lemma read_base_trace t : trace (read_base fs vq t) = [EvRead (ohlcv_path vq t)].
Proof.
  unfold read_base, bind, lift. rewrite read_parquet_trace.
  by destruct (outcome (read_parquet fs (ohlcv_path vq t))).
Qed.

Lemma read_ohlcv_Ok cols t df :
  outcome (read_ohlcv fs vq cols t) = Ok df →
  ∃ tbl, fs !! ohlcv_path vq t = Some (Parquet tbl) ∧
         pq_date tbl = Some (df_index df) ∧ (df_columns df).*1 = cols.
Proof.
  unfold read_ohlcv. intros (tbl & Ht & Hd)%outcome_bind_Ok.
  apply read_parquet_Ok in Ht. exists tbl. split; [done|].
  simpl in Hd. unfold select_by_date in Hd.
  destruct (pq_date tbl) as [dates|]; [|discriminate].
  destruct (List.find _ cols); [discriminate|].
  destruct (bool_decide ("date" ∈ cols)); [discriminate|].
  injection Hd as <-. simpl. split; [done|].
  rewrite <- list_fmap_compose. by rewrite list_fmap_id.
Qed.

Lemma read_ohlcv_missing cols t :
  fs !! ohlcv_path vq t = None → is_Raise (outcome (read_ohlcv fs vq cols t)).
Proof.
  intros H. unfold read_ohlcv.
  by rewrite (bind_Raise _ _ _ (read_parquet_missing _ H)).
Qed.

Lemma read_base_Ok t df :
  outcome (read_base fs vq t) = Ok df →
  ∃ tbl, fs !! ohlcv_path vq t = Some (Parquet tbl) ∧
         pq_date tbl = Some (df_index df).
Proof.
  unfold read_base. intros (tbl & Ht & Hd)%outcome_bind_Ok.
  apply read_parquet_Ok in Ht. exists tbl. split; [done|].
  simpl in Hd. unfold set_index_date in Hd.
  destruct (pq_date tbl) as [dates|]; [|discriminate].
  by injection Hd as <-.
Qed.

Lemma read_base_missing t :
  fs !! ohlcv_path vq t = None → is_Raise (outcome (read_base fs vq t)).
Proof.
  intros H. unfold read_base.
  by rewrite (bind_Raise _ _ _ (read_parquet_missing _ H)).
Qed.

(** The dates of the unified index of a loaded dict are the dates of the
    frames loaded for the tickers. *)
Lemma unified_index_loaded load tickers (result : gmap string (DataFrame V string))
    (all : list Z) :
  (∀ t, result !! t = if decide (t ∈ tickers) then loaded load t else None) →
  unified_index (df_index <$> (map_to_list result).*2) = Ok all →
  tickers ≠ [] ∧ StronglySorted Z.lt all ∧
  ∀ d, d ∈ all ↔ ∃ t df, t ∈ tickers ∧ outcome (load t) = Ok df ∧ d ∈ df_index df.
Proof.
  intros Hm (Hne & Hs & Hall)%unified_index_spec. split; [|split; [done|]].
  - intros ->. apply Hne.
    assert (result = ∅) as ->; [|by rewrite map_to_list_empty].
    apply map_eq. intros t. rewrite Hm, lookup_empty. done.
  - intros d. rewrite Hall. split.
    + intros (idx & Hidx & Hd).
      apply list_elem_of_fmap in Hidx as (df & -> & Hdf).
      apply list_elem_of_fmap in Hdf as ([t df'] & -> & Hin).
      apply elem_of_map_to_list in Hin. rewrite Hm in Hin.
      destruct (decide (t ∈ tickers)); [|discriminate].
      destruct (outcome (load t)) eqn:E; [|discriminate].
      injection Hin as <-. simpl in Hd. eauto.
    + intros (t & df & Hin & Hl & Hd). exists (df_index df). split; [|done].
      apply list_elem_of_fmap. exists df. split; [done|].
      apply list_elem_of_fmap. exists (t, df). split; [done|].
      apply elem_of_map_to_list. rewrite Hm, decide_True by done. by rewrite Hl.
Qed.

Lemma setitem_index {L} `{EqDecision L} (df : DataFrame V L) key data :
  df_index (setitem df key data) = df_index df.
Proof. unfold setitem. by destruct (bool_decide _). Qed.

Lemma setitem_from_index {L K} `{EqDecision L} `{EqDecision K}
    (df df' : DataFrame V L) key (src : DataFrame V K) col :
  setitem_from df key src col = Ok df' → df_index df' = df_index df.
Proof.
  unfold setitem_from. destruct (getitem src col) as [|data [|]]; try discriminate.
  intros [= <-]. apply setitem_index.
Qed.

Lemma set_columns_Ok {L K} (df : DataFrame V L) (labels : list K) df' :
  set_columns df labels = Ok df' →
  df_index df' = df_index df ∧ (df_columns df').*1 = labels.
Proof.
  unfold set_columns. destruct (bool_decide_reflect (length labels = length (df_columns df)))
    as [Hlen|]; [|discriminate].
  intros [= <-]. simpl. split; [done|].
  apply fst_zip. rewrite length_fmap. lia.
Qed.

(** Shape of a successful [get_ohlcv]: labels and row index. *)
Lemma get_ohlcv_Ok tickers cols (df : WideTable V) :
  outcome (get_ohlcv fs vq tickers cols) = Ok df →
  (df_columns df).*1 = from_product cols tickers ∧
  tickers ≠ [] ∧ StronglySorted Z.lt (df_index df) ∧
  ∀ d, d ∈ df_index df ↔
       ∃ t frame, t ∈ tickers ∧ outcome (read_ohlcv fs vq cols t) = Ok frame ∧
                  d ∈ df_index frame.
Proof.
  unfold get_ohlcv.
  intros (result & Hload & H)%outcome_bind_Ok.
  apply outcome_bind_Ok in H as (all & Hall & H).
  apply outcome_bind_Ok in H as (aligned & Hal & H).
  simpl in Hall, H. apply set_columns_Ok in H as [Hidx Hlab].
  split; [done|].
  destruct (load_loop_spec (read_ohlcv fs vq cols) tickers ∅) as
    [(result' & Hr & _ & _ & Hm)|(? & ? & ? & ? & _ & _ & _ & Hr & _)];
    simpl in Hr; rewrite Hload in Hr; [|discriminate].
  injection Hr as <-.
  assert (df_index aligned = all) as Haidx.
  { revert Hal.
    apply (for_each_inv (λ a : DataFrame V (string * string), df_index a = all));
      [|done].
    intros a t a' _ Ha Hstep.
    apply outcome_bind_Ok in Hstep as (df0 & _ & Hstep).
    apply outcome_bind_Ok in Hstep as (df1 & _ & Hstep).
    revert Hstep.
    apply (for_each_inv (λ a : DataFrame V (string * string), df_index a = all));
      [|done].
    intros b c b' _ Hb Hset. simpl in Hset.
    by rewrite (setitem_from_index _ _ _ _ _ Hset). }
  rewrite Hidx, Haidx.
  eapply unified_index_loaded; [|exact Hall].
  intros t. rewrite Hm. by rewrite lookup_empty.
Qed.

(** ** [get_factors] *)

Implicit Types (factors : list (FactorSpec V))
  (rec : list string → list (FactorSpec V) → Run (WideTable V)).

Lemma bind_ext {A B} (m : Run A) (f g : A → Run B) :
  (∀ a, outcome m = Ok a → f a = g a) → (x <- m ;; f x) = (x <- m ;; g x).
Proof. intros H. unfold bind. destruct (outcome m); [by rewrite H|done]. Qed.

Lemma try_except_Ok {A} (m : Run A) (h : Exc → Run A) (a : A) :
  (∀ e, is_Raise (outcome (h e))) →
  outcome (try_except m h) = Ok a → outcome m = Ok a.
Proof.
  intros Hh. unfold try_except. destruct (outcome m) as [a'|e] eqn:E; [by rewrite E|].
  simpl. specialize (Hh e). intros H. by rewrite H in Hh.
Qed.

(** A factor string always resolves, to a stored factor. *)
Lemma resolve_spec_SpecStr (s : string) :
  ∃ name category, resolve_spec (V:=V) (SpecStr s) = Ok (StoredFactor name category).
Proof.
  unfold resolve_spec, has_dot, split_dot_1.
  destruct (partition_dot s) as [[a b]|]; eauto.
Qed.

Lemma resolve_factors_cons (f : FactorSpec V) factors :
  resolve_factors (f :: factors)
  = res_bind (resolve_spec f) (λ r,
    res_bind (resolve_factors factors) (λ rs, Ok (r :: rs))).
Proof. done. Qed.

Lemma resolve_factors_strings (deps : list string) :
  ∃ resolved,
    resolve_factors (V:=V) (SpecStr <$> deps) = Ok resolved ∧
    length resolved = length deps ∧
    Forall (λ f, ∃ name category, f = StoredFactor name category) resolved.
Proof.
  induction deps as [|s deps (resolved & Hr & Hlen & Hall)].
  - exists []. by split_and!.
  - destruct (resolve_spec_SpecStr s) as (n & c & Hs).
    exists (StoredFactor n c :: resolved).
    rewrite fmap_cons, resolve_factors_cons, Hs, Hr. simpl.
    split_and!; [done|by rewrite Hlen|]. constructor; eauto.
Qed.

Lemma resolve_factors_valid factors :
  Forall (λ f, f ≠ SpecOther) factors →
  ∃ resolved, resolve_factors factors = Ok resolved.
Proof.
  induction 1 as [|f factors Hf _ (resolved & Hr)]; [by exists []|].
  rewrite resolve_factors_cons, Hr. destruct f as [s|fac|]; [| |done].
  - destruct (resolve_spec_SpecStr s) as (n & c & ->). simpl. eauto.
  - simpl. eauto.
Qed.

(** The body of [get_factors] depends on the recursive call only through
    the fetches of the resolved factors. *)
Lemma get_factors_body_ext rec1 rec2 tickers factors :
  (∀ resolved fac ticker,
      resolve_factors factors = Ok resolved → fac ∈ resolved →
      fetch fs vq rec1 fac ticker = fetch fs vq rec2 fac ticker) →
  get_factors_body fs vq rec1 tickers factors
  = get_factors_body fs vq rec2 tickers factors.
Proof.
  intros Hext. unfold get_factors_body.
  apply bind_ext. intros resolved Hres. simpl in Hres.
  apply bind_ext. intros base _. apply bind_ext. intros all _.
  apply for_each_ext. intros a t _.
  apply bind_ext. intros df0 _. apply bind_ext. intros df1 _.
  apply for_each_ext. intros b fac Hfac.
  by rewrite (Hext resolved fac t Hres Hfac).
Qed.

(** On dependency strings the recursive call is never reached. *)
Lemma get_factors_body_strings rec1 rec2 tickers (deps : list string) :
  get_factors_body fs vq rec1 tickers (SpecStr <$> deps)
  = get_factors_body fs vq rec2 tickers (SpecStr <$> deps).
Proof.
  apply get_factors_body_ext. intros resolved fac ticker Hres Hfac.
  destruct (resolve_factors_strings deps) as (resolved' & Hres' & _ & Hall).
  rewrite Hres in Hres'. injection Hres' as <-.
  rewrite Forall_forall in Hall. by destruct (Hall fac Hfac) as (n & c & ->).
Qed.

(** Two nested calls are all that [get_factors] makes: more fuel does not
    change the result. *)
Lemma get_factors_fuel_enough (depth : nat) tickers factors :
  get_factors_fuel fs vq (S (S depth)) tickers factors
  = get_factors fs vq tickers factors.
Proof.
  unfold get_factors. simpl.
  apply get_factors_body_ext. intros resolved fac ticker _ _.
  destruct fac as [n c|n c fn deps]; simpl; [done|].
  f_equal. destruct depth as [|depth]; [done|]. simpl.
  apply get_factors_body_strings.
Qed.

(** [get_factors] is the fixed point of its body: the [get_factors] that
    [ComputedFactor.fetch] calls is the orchestrator's own. *)
Lemma get_factors_unfold tickers factors :
  get_factors fs vq tickers factors
  = get_factors_body fs vq (get_factors fs vq) tickers factors.
Proof.
  unfold get_factors at 1. simpl.
  apply get_factors_body_ext. intros resolved fac ticker _ _.
  destruct fac as [n c|n c fn deps]; simpl; [done|].
  f_equal. unfold get_factors. simpl. apply get_factors_body_strings.
Qed.

Lemma setitem_labels {L} `{EqDecision L} (df : DataFrame V L) key data :
  key ∈ (df_columns df).*1 →
  (df_columns (setitem df key data)).*1 = (df_columns df).*1.
Proof.
  intros Hin. unfold setitem. rewrite bool_decide_eq_true_2 by done. simpl.
  rewrite <- list_fmap_compose. apply list_fmap_ext. intros i [l c] _. simpl.
  by destruct (bool_decide (l = key)).
Qed.

Lemma setitem_each_labels {L} `{EqDecision L} n (cols : list (L * list (Cell V)))
    key value i r :
  setitem_each n cols key value i = Ok r → r.*1 = cols.*1.
Proof.
  revert i r. induction cols as [|p cols IH]; intros i r; cbn [setitem_each].
  - by intros [= <-].
  - case_bool_decide.
    + intros (c & _ & (r' & Hr' & [= <-])%res_bind_Ok)%res_bind_Ok.
      rewrite !fmap_cons. cbn [fst]. f_equal. eauto.
    + intros (r' & Hr' & [= <-])%res_bind_Ok.
      rewrite !fmap_cons. f_equal. eauto.
Qed.

(** A successful assignment of a series keeps the row index and, for a
    label of the frame, the column labels. *)
Lemma setitem_series_Ok {L} `{EqDecision L} (df df' : DataFrame V L) key value :
  key ∈ (df_columns df).*1 → setitem_series df key value = Ok df' →
  df_index df' = df_index df ∧ (df_columns df').*1 = (df_columns df).*1.
Proof.
  intros Hin. unfold setitem_series. case_bool_decide.
  - intros (cols & Hcols & [= <-])%res_bind_Ok. simpl.
    split; [done|]. by eapply setitem_each_labels.
  - intros [= <-]. by rewrite setitem_index, setitem_labels.
Qed.

Lemma elem_of_from_product (outer inner : list string) a b :
  (a, b) ∈ from_product outer inner ↔ a ∈ outer ∧ b ∈ inner.
Proof.
  unfold from_product. by rewrite list_elem_of_In, in_prod_iff, <- !list_elem_of_In.
Qed.

(** Shape of a successful [get_factors]: the labels are the product of
    the resolved factors' full names and the tickers, the row index is
    the unified index of the tickers' base OHLCV frames. *)
Lemma get_factors_body_Ok rec tickers factors (df : WideTable V) :
  outcome (get_factors_body fs vq rec tickers factors) = Ok df →
  ∃ resolved,
    resolve_factors factors = Ok resolved ∧
    (df_columns df).*1 = from_product (full_name <$> resolved) tickers ∧
    tickers ≠ [] ∧ StronglySorted Z.lt (df_index df) ∧
    ∀ d, d ∈ df_index df ↔
         ∃ t frame, t ∈ tickers ∧ outcome (read_base fs vq t) = Ok frame ∧
                    d ∈ df_index frame.
Proof.
  unfold get_factors_body.
  intros (resolved & Hres & H)%outcome_bind_Ok. simpl in Hres.
  apply outcome_bind_Ok in H as (base & Hload & H).
  apply outcome_bind_Ok in H as (all & Hall & H). simpl in Hall.
  exists resolved. split; [done|].
  destruct (load_loop_spec (read_base fs vq) tickers ∅) as
    [(result' & Hr & _ & _ & Hm)|(? & ? & ? & ? & _ & _ & _ & Hr & _)];
    simpl in Hr; rewrite Hload in Hr; [|discriminate].
  injection Hr as <-.
  set (labels := from_product (full_name <$> resolved) tickers) in *.
  assert (df_index df = all ∧ (df_columns df).*1 = labels) as [Hidx Hlab].
  { revert H.
    apply (for_each_inv
             (λ a : WideTable V, df_index a = all ∧ (df_columns a).*1 = labels)).
    - intros a t a' Ht Ha Hstep.
      apply outcome_bind_Ok in Hstep as (df0 & _ & Hstep).
      apply outcome_bind_Ok in Hstep as (df1 & _ & Hstep).
      revert Hstep.
      apply (for_each_inv
               (λ a : WideTable V, df_index a = all ∧ (df_columns a).*1 = labels));
        [|done].
      intros b fac b' Hfac [Hb1 Hb2] Hset.
      apply try_except_Ok in Hset; [|done].
      apply outcome_bind_Ok in Hset as (series & _ & Hset).
      apply outcome_bind_Ok in Hset as (aligned & _ & Hset).
      simpl in Hset. apply setitem_series_Ok in Hset as [Hi Hl].
      { by rewrite Hi, Hl. }
      rewrite Hb2. apply elem_of_from_product. split; [|done].
      apply list_elem_of_fmap. eauto.
    - unfold empty_frame. simpl. split; [done|].
      rewrite <- list_fmap_compose. by rewrite list_fmap_id. }
  split; [done|]. rewrite Hidx.
  eapply unified_index_loaded; [|exact Hall].
  intros t. rewrite Hm. by rewrite lookup_empty.
Qed.

Lemma concat_read_traces load (path : string → string) (l : list string) :
  (∀ t, trace (load t) = [EvRead (path t)]) →
  List.concat ((λ t, trace (load t)) <$> l) = EvRead ∘ path <$> l.
Proof.
  intros H. induction l as [|x l IH]; [done|].
  rewrite !fmap_cons. simpl. by rewrite H, IH.
Qed.

(** The loading loop of [get_ohlcv] and [get_factors] when a ticker fails
    to load. *)
Lemma load_loop_fails load tickers ticker :
  (∀ t, trace (load t) = [EvRead (ohlcv_path vq t)]) →
  ticker ∈ tickers → is_Raise (outcome (load ticker)) →
  ∃ l1 t l2 e,
    tickers = l1 ++ t :: l2 ∧
    Forall (λ t', ∃ df, outcome (load t') = Ok df) l1 ∧
    outcome (load t) = Raise e ∧
    for_each tickers (load_step load) ∅
    = MkRun (EvRead ∘ ohlcv_path vq <$> l1 ++ [t])
        (Raise (MkExc DataLoadError
                  ("Failed to load OHLCV for " +:+ t +:+ ": " +:+ exc_msg e))) ∧
    ((∀ t', t' ∈ tickers → is_Raise (outcome (load t')) → t' = ticker) → t = ticker).
Proof.
  intros Htr Hin Hfail.
  destruct (load_loop_spec load tickers ∅) as
    [(result & _ & Hall & _)|(l1 & t & l2 & e & Heq & Hall & Ht & Hr & Htrace)].
  - rewrite Forall_forall in Hall. destruct (Hall _ Hin) as (df & Hdf).
    by rewrite Hdf in Hfail.
  - exists l1, t, l2, e. split_and!; [done..| |].
    + destruct (for_each tickers _ ∅) as [tr o]. simpl in Hr, Htrace. subst o tr.
      f_equal. rewrite fmap_app, (concat_read_traces _ (ohlcv_path vq)) by done.
      by rewrite Htr.
    + intros Honly. apply Honly; [|by rewrite Ht].
      rewrite Heq, elem_of_app, elem_of_cons. tauto.
Qed.

(** C5. If the OHLCV resource of a requested ticker does not exist or
    fails to load, [get_ohlcv] raises [DataLoadError]: the message names
    the first ticker of the list that failed to load (the given one when
    it is the only one), no table is returned, and nothing is read after
    the failure. *)
Theorem get_ohlcv_fail_fast tickers cols ticker :
  ticker ∈ tickers →
  fs !! ohlcv_path vq ticker = None
    ∨ is_Raise (outcome (read_ohlcv fs vq cols ticker)) →
  ∃ l1 t l2 e,
    tickers = l1 ++ t :: l2 ∧
    Forall (λ t', ∃ df, outcome (read_ohlcv fs vq cols t') = Ok df) l1 ∧
    outcome (read_ohlcv fs vq cols t) = Raise e ∧
    get_ohlcv fs vq tickers cols
    = MkRun (EvRead ∘ ohlcv_path vq <$> l1 ++ [t])
        (Raise (MkExc DataLoadError
                  ("Failed to load OHLCV for " +:+ t +:+ ": " +:+ exc_msg e))) ∧
    ((∀ t', t' ∈ tickers → is_Raise (outcome (read_ohlcv fs vq cols t')) →
        t' = ticker) → t = ticker).
Proof.
  intros Hin Hfail.
  assert (is_Raise (outcome (read_ohlcv fs vq cols ticker))) as Hraise.
  { destruct Hfail as [Hnone|]; [by apply read_ohlcv_missing|done]. }
  destruct (load_loop_fails (read_ohlcv fs vq cols) tickers ticker
              (read_ohlcv_trace cols) Hin Hraise)
    as (l1 & t & l2 & e & Heq & Hall & Ht & Hloop & Honly).
  exists l1, t, l2, e. split_and!; [done..| |done].
  unfold get_ohlcv. rewrite Hloop. apply bind_MkRun_Raise.
Qed.

(** C9. With well-typed factor specifications, [get_factors] raises
    [DataLoadError] naming the first ticker whose OHLCV resource is
    missing or unreadable, whatever the factors are, and has read nothing
    but OHLCV resources by then; when every ticker loads, the OHLCV
    reads of all the tickers come first in the run, before anything that
    a factor fetch does. *)
Theorem get_factors_needs_ohlcv tickers factors :
  Forall (λ f, f ≠ SpecOther) factors →
  (∀ ticker,
      ticker ∈ tickers →
      fs !! ohlcv_path vq ticker = None
        ∨ is_Raise (outcome (read_base fs vq ticker)) →
      ∃ l1 t l2 e,
        tickers = l1 ++ t :: l2 ∧
        Forall (λ t', ∃ df, outcome (read_base fs vq t') = Ok df) l1 ∧
        outcome (read_base fs vq t) = Raise e ∧
        get_factors fs vq tickers factors
        = MkRun (EvRead ∘ ohlcv_path vq <$> l1 ++ [t])
            (Raise (MkExc DataLoadError
                      ("Failed to load OHLCV for " +:+ t +:+ ": " +:+ exc_msg e))) ∧
        ((∀ t', t' ∈ tickers → is_Raise (outcome (read_base fs vq t')) →
            t' = ticker) → t = ticker)) ∧
  (Forall (λ t, ∃ df, outcome (read_base fs vq t) = Ok df) tickers →
     ∃ rest, trace (get_factors fs vq tickers factors)
             = (EvRead ∘ ohlcv_path vq <$> tickers) ++ rest).
Proof.
  intros [resolved Hres]%resolve_factors_valid.
  unfold get_factors. cbn [get_factors_fuel]. unfold get_factors_body.
  rewrite Hres, bind_lift_Ok. split.
  - intros ticker Hin Hfail.
    assert (is_Raise (outcome (read_base fs vq ticker))) as Hraise.
    { destruct Hfail as [Hnone|]; [by apply read_base_missing|done]. }
    destruct (load_loop_fails (read_base fs vq) tickers ticker
                read_base_trace Hin Hraise)
      as (l1 & t & l2 & e & Heq & Hall & Ht & Hloop & Honly).
    exists l1, t, l2, e. split_and!; [done..| |done].
    rewrite Hloop. apply bind_MkRun_Raise.
  - intros Hall.
    destruct (load_loop_spec (read_base fs vq) tickers ∅) as
      [(result & Hr & _ & Htr & _)|(l1 & t & l2 & e & Heq & _ & Ht & _)].
    + simpl in Hr, Htr. rewrite (bind_Ok _ _ _ Hr). simpl. rewrite Htr.
      rewrite (concat_read_traces _ (ohlcv_path vq)) by apply read_base_trace.
      eauto.
    + rewrite Forall_forall in Hall. destruct (Hall t) as (df & Hdf).
      * rewrite Heq, elem_of_app, elem_of_cons. tauto.
      * by rewrite Hdf in Ht.
Qed.

Lemma from_product_flat (outer inner : list string) :
  from_product outer inner = outer ≫= λ f, pair f <$> inner.
Proof.
  unfold from_product. induction outer as [|o outer IH]; [done|].
  simpl. by rewrite IH.
Qed.

(** The full names of the resolved factors are the names that the
    caller's list asks for, one per element and in its order. *)
Lemma resolve_factors_requested factors resolved :
  resolve_factors factors = Ok resolved →
  (SpecOther ∉ factors) ∧ full_name <$> resolved = requested_name <$> factors.
Proof.
  revert resolved. induction factors as [|f factors IH]; intros resolved.
  - intros [= <-]. split; [apply not_elem_of_nil|done].
  - rewrite resolve_factors_cons.
    intros (r & Hr & (rs & Hrs & [= <-])%res_bind_Ok)%res_bind_Ok.
    destruct (IH rs Hrs) as [Hother Hnames]. split.
    + intros [<-|Hin]%elem_of_cons; [discriminate|done].
    + rewrite !fmap_cons, Hnames. f_equal.
      destruct f as [s|fac|]; [|by injection Hr as <-|discriminate].
      unfold resolve_spec, requested_name, has_dot, split_dot_1 in *.
      destruct (partition_dot s) as [[a b]|] eqn:E; injection Hr as <-; [|done].
      by apply partition_dot_Some in E as [-> _].
Qed.

(** C7. The column labels of a table returned by [get_ohlcv] are the
    pairs (field, ticker) for the fields of the caller's list, and those
    of a table returned by [get_factors] the pairs (full name, ticker)
    for the factors of the caller's list, which then holds strings and
    factor objects only: one group of columns per element of the list, in
    the order of the list and under the name that the element asks for,
    and in each group one column per ticker, in the order of the caller's
    ticker list. *)
Theorem columns_are_product tickers :
  (∀ cols df,
      outcome (get_ohlcv fs vq tickers cols) = Ok df →
      (df_columns df).*1 = cols ≫= λ c, pair c <$> tickers) ∧
  (∀ factors df,
      outcome (get_factors fs vq tickers factors) = Ok df →
      (SpecOther ∉ factors) ∧
      (df_columns df).*1 = (requested_name <$> factors) ≫= λ f, pair f <$> tickers).
Proof.
  split.
  - intros cols df (Hlab & _)%get_ohlcv_Ok. by rewrite Hlab, from_product_flat.
  - intros factors df H. unfold get_factors in H. cbn [get_factors_fuel] in H.
    apply get_factors_body_Ok in H as (resolved & Hres & Hlab & _).
    apply resolve_factors_requested in Hres as [Hother Hnames].
    split; [done|]. by rewrite Hlab, Hnames, from_product_flat.
Qed.

Lemma read_base_Some t tbl dates :
  fs !! ohlcv_path vq t = Some (Parquet tbl) → pq_date tbl = Some dates →
  outcome (read_base fs vq t) = Ok (MkFrame dates (pq_columns tbl)).
Proof.
  intros Hf Hd. apply read_parquet_Ok in Hf. unfold read_base.
  rewrite (bind_Ok _ _ _ Hf). simpl. unfold set_index_date. by rewrite Hd.
Qed.

(** C3, as amended. The row index of a table returned by [get_factors]
    is strictly ascending and holds exactly the dates of the ["date"]
    columns of the requested tickers' OHLCV resources. *)
Theorem get_factors_row_index tickers factors df :
  outcome (get_factors fs vq tickers factors) = Ok df →
  StronglySorted Z.lt (df_index df) ∧
  ∀ d, d ∈ df_index df ↔
       ∃ t tbl dates,
         t ∈ tickers ∧ fs !! ohlcv_path vq t = Some (Parquet tbl) ∧
         pq_date tbl = Some dates ∧ d ∈ dates.
Proof.
  intros H. unfold get_factors in H. cbn [get_factors_fuel] in H.
  apply get_factors_body_Ok in H as (resolved & _ & _ & _ & Hs & Hm).
  split; [done|]. intros d. rewrite Hm. split.
  - intros (t & frame & Hin & Hf & Hd).
    apply read_base_Ok in Hf as (tbl & Hf & Hdates). eauto 10.
  - intros (t & tbl & dates & Hin & Hf & Hdates & Hd).
    exists t, (MkFrame dates (pq_columns tbl)). split_and!; [done| |done].
    by apply read_base_Some.
Qed.

(** X16. The row index of a table returned by [get_ohlcv] is strictly
    ascending and holds exactly the dates of the requested tickers'
    OHLCV resources: no date of a ticker is dropped. *)
Lemma get_ohlcv_row_index tickers cols df :
  outcome (get_ohlcv fs vq tickers cols) = Ok df →
  StronglySorted Z.lt (df_index df) ∧
  ∀ d, d ∈ df_index df ↔
       ∃ t tbl dates,
         t ∈ tickers ∧ fs !! ohlcv_path vq t = Some (Parquet tbl) ∧
         pq_date tbl = Some dates ∧ d ∈ dates.
Proof.
  intros H. pose proof H as (_ & Hne & Hs & Hm)%get_ohlcv_Ok.
  split; [done|]. intros d. rewrite Hm. split.
  - intros (t & frame & Hin & Hf & Hd).
    apply read_ohlcv_Ok in Hf as (tbl & Hf & Hdates & _). eauto 10.
  - intros (t & tbl & dates & Hin & Hf & Hdates & Hd).
    destruct (load_loop_spec (read_ohlcv fs vq cols) tickers ∅) as
      [(result & _ & Hall & _)|(l1 & t' & l2 & e & Heq & _ & Ht & Hr & _)].
    + rewrite Forall_forall in Hall. destruct (Hall t Hin) as (frame & Hframe).
      exists t, frame. split_and!; [done..|].
      apply read_ohlcv_Ok in Hframe as (tbl' & Hf' & Hdates' & _).
      rewrite Hf in Hf'. injection Hf' as <-. rewrite Hdates in Hdates'.
      by injection Hdates' as <-.
    + unfold get_ohlcv in H. simpl in Hr.
      rewrite (bind_Raise _ _ _ Hr) in H. discriminate.
Qed.

(** ** What a run reads *)

Lemma trace_bind_Forall {A B} (Q : Event → Prop) (m : Run A) (f : A → Run B) :
  Forall Q (trace m) → (∀ a, outcome m = Ok a → Forall Q (trace (f a))) →
  Forall Q (trace (x <- m ;; f x)).
Proof.
  intros Hm Hf. unfold bind. destruct (outcome m) as [a|e]; simpl; [|done].
  apply Forall_app. split; [done|by apply Hf].
Qed.

Lemma trace_try_Forall {A} (Q : Event → Prop) (m : Run A) (h : Exc → Run A) :
  Forall Q (trace m) → (∀ e, Forall Q (trace (h e))) →
  Forall Q (trace (try_except m h)).
Proof.
  intros Hm Hh. unfold try_except. destruct (outcome m) as [a|e]; simpl; [done|].
  apply Forall_app. split; [done|apply Hh].
Qed.

Lemma trace_for_each_Forall {A S} (Q : Event → Prop) (l : list A)
    (body : S → A → Run S) (s : S) :
  (∀ s x, x ∈ l → Forall Q (trace (body s x))) →
  Forall Q (trace (for_each l body s)).
Proof.
  revert s. induction l as [|x l IH]; intros s Hb; simpl; [constructor|].
  apply trace_bind_Forall; [apply Hb; left|].
  intros s' _. apply IH. intros. apply Hb. by right.
Qed.

Lemma StoredFactor_fetch_trace name category ticker :
  trace (StoredFactor_fetch fs vq name category ticker)
  = [EvRead (path_of vq ticker category name)].
Proof.
  unfold StoredFactor_fetch, try_except, bind. rewrite read_parquet_trace.
  destruct (outcome (read_parquet fs _)) as [t|e]; simpl.
  - destruct (getitem_value t); simpl; [done|]. by destruct (bool_decide _).
  - by destruct (bool_decide _).
Qed.

(** Fetching dependency strings for one ticker reads resources of that
    ticker only, and runs no transform. *)
Lemma dependencies_trace rec ticker (deps : list string) :
  Forall (λ ev, ∃ category name, ev = EvRead (path_of vq ticker category name))
    (trace (get_factors_body fs vq rec [ticker] (SpecStr <$> deps))).
Proof.
  destruct (resolve_factors_strings deps) as (resolved & Hres & _ & Hall).
  unfold get_factors_body. rewrite Hres, bind_lift_Ok.
  apply trace_bind_Forall.
  - apply trace_for_each_Forall. intros m t ->%list_elem_of_singleton.
    apply trace_try_Forall; [|by constructor].
    apply trace_bind_Forall; [|by constructor].
    rewrite read_base_trace. repeat constructor. unfold ohlcv_path. eauto.
  - intros base _. apply trace_bind_Forall; [by constructor|].
    intros all _. apply trace_for_each_Forall. intros a t ->%list_elem_of_singleton.
    apply trace_bind_Forall; [by constructor|]. intros df0 _.
    apply trace_bind_Forall; [by constructor|]. intros df1 _.
    apply trace_for_each_Forall. intros b fac Hfac.
    apply trace_try_Forall; [|by constructor].
    rewrite Forall_forall in Hall. destruct (Hall fac Hfac) as (n & c & ->).
    apply trace_bind_Forall.
    + simpl. rewrite StoredFactor_fetch_trace. repeat constructor. eauto.
    + intros series _. apply trace_bind_Forall; by constructor.
Qed.

Lemma from_product_single (names : list string) (ticker : string) :
  from_product names [ticker] = (λ f, (f, ticker)) <$> names.
Proof.
  unfold from_product. induction names as [|n names IH]; [done|].
  simpl. by rewrite IH.
Qed.

End Orchestrator.

(** ** The claims on the example store *)

Section OnExamples.
Import Examples.

(** C1 (defect of [get_ohlcv]). Tickers A (dates 1, 2) and B (dates 2, 3)
    with the fields open and close: the row index is 1, 2, 3, but the
    columns are filled ticker by ticker and then relabelled field by
    field, so the column labelled (open, B) holds A's close: its cell at
    date 1, a date that B does not have, is A's close of that date and
    not the missing marker. *)
Theorem get_ohlcv_mislabels_columns :
  ∃ df,
    outcome (get_ohlcv fs0 vq0 ["A"; "B"] ["open"; "close"]) = Ok df ∧
    df_index df = [1; 2; 3]%Z ∧
    pq_date tblB = Some [2; 3]%Z ∧
    cell_at [1; 2]%Z (default [] (column_of (pq_columns tblA) "close")) 1 = Some 12%Z ∧
    frame_cell df ("open", "B") 1 = Some 12%Z.
Proof. eexists. split; [vm_compute; reflexivity|]. by vm_compute. Qed.

(** With a single field the same tickers are aligned as expected. *)
Example get_ohlcv_single_field :
  outcome (get_ohlcv fs0 vq0 ["A"; "B"] ["close"])
  = Ok (MkFrame [1; 2; 3]%Z
          [(("close", "A"), [Some 12; Some 13; None]%Z);
           (("close", "B"), [None; Some 22; Some 23]%Z)]).
Proof. by vm_compute. Qed.

(** C2 (defect of [get_factors]). The resource of [technical.rsi_14] for
    B exists and cannot be deserialized: [StoredFactor.fetch] raises
    [DataLoadError], and [get_factors] catches it and raises
    [FactorNotFoundError] in its place, as it does for the missing
    resource of [technical.rsi_15] for A. *)
Theorem get_factors_retypes_load_error :
  fs0 !! path_of vq0 "B" "technical" "rsi_14" = Some (Unreadable "bad magic") ∧
  (∃ msg, outcome (Factor_fetch fs0 vq0 (StoredFactor "rsi_14" "technical") "B")
          = Raise (MkExc DataLoadError msg)) ∧
  (∃ msg, outcome (get_factors fs0 vq0 ["B"] [SpecStr "technical.rsi_14"])
          = Raise (MkExc FactorNotFoundError msg)) ∧
  fs0 !! path_of vq0 "A" "technical" "rsi_15" = None ∧
  (∃ msg, outcome (get_factors fs0 vq0 ["A"] [SpecStr "technical.rsi_15"])
          = Raise (MkExc FactorNotFoundError msg)).
Proof. split_and!; try (eexists; vm_compute; reflexivity); by vm_compute. Qed.

(** C3 fails as stated: the series fetched for [technical.rsi_14] of A
    has the dates 2 and 3, the OHLCV of A the dates 1 and 2, and the
    table returned has the rows 1 and 2: the date 3 of the factor series
    is dropped. *)
Lemma get_factors_drops_factor_date :
  ∃ series df,
    outcome (Factor_fetch fs0 vq0 (StoredFactor "rsi_14" "technical") "A") = Ok series ∧
    outcome (get_factors fs0 vq0 ["A"] [SpecStr "technical.rsi_14"]) = Ok df ∧
    3%Z ∈ series.*1 ∧ 3%Z ∉ df_index df.
Proof.
  do 2 eexists. split_and!; [vm_compute; reflexivity..| |].
  - simpl. rewrite !elem_of_cons. tauto.
  - simpl. rewrite !elem_of_cons, elem_of_nil. lia.
Qed.

Lemma get_factors_row_index_witness :
  ∃ df,
    outcome (get_factors fs0 vq0 ["A"] [SpecStr "technical.rsi_14"]) = Ok df ∧
    StronglySorted Z.lt (df_index df) ∧
    ∀ d, d ∈ df_index df ↔
         ∃ t tbl dates,
           t ∈ ["A"] ∧ fs0 !! ohlcv_path vq0 t = Some (Parquet tbl) ∧
           pq_date tbl = Some dates ∧ d ∈ dates.
Proof.
  eexists. split; [vm_compute; reflexivity|].
  apply (get_factors_row_index fs0 vq0 ["A"] [SpecStr "technical.rsi_14"]).
  vm_compute. reflexivity.
Defined.

Lemma get_ohlcv_fail_fast_witness :
  "C" ∈ ["A"; "C"] ∧ fs0 !! ohlcv_path vq0 "C" = None ∧
  ∃ l1 t l2 e,
    ["A"; "C"] = l1 ++ t :: l2 ∧
    Forall (λ t', ∃ df, outcome (read_ohlcv fs0 vq0 ["close"] t') = Ok df) l1 ∧
    outcome (read_ohlcv fs0 vq0 ["close"] t) = Raise e ∧
    get_ohlcv fs0 vq0 ["A"; "C"] ["close"]
    = MkRun (EvRead ∘ ohlcv_path vq0 <$> l1 ++ [t])
        (Raise (MkExc DataLoadError
                  ("Failed to load OHLCV for " +:+ t +:+ ": " +:+ exc_msg e))) ∧
    ((∀ t', t' ∈ ["A"; "C"] →
        is_Raise (outcome (read_ohlcv fs0 vq0 ["close"] t')) → t' = "C") → t = "C").
Proof.
  assert ("C" ∈ ["A"; "C"]) as Hin by (repeat constructor).
  assert (fs0 !! ohlcv_path vq0 "C" = None) as Hnone by (vm_compute; reflexivity).
  split; [exact Hin|]. split; [exact Hnone|].
  exact (get_ohlcv_fail_fast fs0 vq0 ["A"; "C"] ["close"] "C" Hin (or_introl Hnone)).
Defined.

Lemma get_factors_needs_ohlcv_witness :
  Forall (λ f : FactorSpec Z, f ≠ SpecOther) [SpecStr "technical.rsi_14"] ∧
  "C" ∈ ["A"; "C"] ∧ fs0 !! ohlcv_path vq0 "C" = None ∧
  ∃ l1 t l2 e,
    ["A"; "C"] = l1 ++ t :: l2 ∧
    Forall (λ t', ∃ df, outcome (read_base fs0 vq0 t') = Ok df) l1 ∧
    outcome (read_base fs0 vq0 t) = Raise e ∧
    get_factors fs0 vq0 ["A"; "C"] [SpecStr "technical.rsi_14"]
    = MkRun (EvRead ∘ ohlcv_path vq0 <$> l1 ++ [t])
        (Raise (MkExc DataLoadError
                  ("Failed to load OHLCV for " +:+ t +:+ ": " +:+ exc_msg e))) ∧
    ((∀ t', t' ∈ ["A"; "C"] →
        is_Raise (outcome (read_base fs0 vq0 t')) → t' = "C") → t = "C").
Proof.
  assert (Forall (λ f : FactorSpec Z, f ≠ SpecOther) [SpecStr "technical.rsi_14"])
    as Hvalid by (repeat constructor; discriminate).
  assert ("C" ∈ ["A"; "C"]) as Hin by (repeat constructor).
  assert (fs0 !! ohlcv_path vq0 "C" = None) as Hnone by (vm_compute; reflexivity).
  split; [exact Hvalid|]. split; [exact Hin|]. split; [exact Hnone|].
  exact (proj1 (get_factors_needs_ohlcv fs0 vq0 ["A"; "C"] _ Hvalid)
           "C" Hin (or_introl Hnone)).
Defined.

Lemma columns_are_product_witness :
  (∃ df,
      outcome (get_ohlcv fs1 vq0 ["B"; "A"] ["open"; "close"]) = Ok df ∧
      (df_columns df).*1
      = [("open", "B"); ("open", "A"); ("close", "B"); ("close", "A")]) ∧
  (∃ df,
      outcome (get_factors fs1 vq0 ["B"; "A"]
                 [SpecStr "rsi_14"; SpecFactor (StoredFactor "rsi_14" "momentum")])
      = Ok df ∧
      (df_columns df).*1
      = [("technical.rsi_14", "B"); ("technical.rsi_14", "A");
         ("momentum.rsi_14", "B"); ("momentum.rsi_14", "A")]).
Proof.
  destruct (columns_are_product fs1 vq0 ["B"; "A"]) as [Hohlcv Hfactors]. split.
  - eexists. split; [vm_compute; reflexivity|].
    apply (Hohlcv ["open"; "close"]). vm_compute. reflexivity.
  - eexists. split; [vm_compute; reflexivity|].
    refine (proj2 (Hfactors
                     [SpecStr "rsi_14"; SpecFactor (StoredFactor "rsi_14" "momentum")]
                     _ _)).
    vm_compute. reflexivity.
Defined.

Lemma factor_string_resolution_witness :
  has_dot "technical.rsi_14" = true ∧
  ∃ category name,
    "technical.rsi_14" = category +:+ "." +:+ name ∧ has_dot category = false ∧
    split_dot_1 "technical.rsi_14" = [category; name] ∧
    resolve_spec (V:=Z) (SpecStr "technical.rsi_14") = Ok (StoredFactor name category) ∧
    full_name (V:=Z) (StoredFactor name category) = "technical.rsi_14".
Proof.
  split; [reflexivity|].
  exact (proj1 (factor_string_resolution (V:=Z) "technical.rsi_14") eq_refl).
Defined.

Lemma Signal_init_bare_string_witness :
  SpecStr "rsi_14" ∈ [SpecStr (V:=Z) "rsi_14"] ∧ has_dot "rsi_14" = false ∧
  (∃ msg, Signal_init "s" [SpecStr (V:=Z) "rsi_14"] (λ _, Ok [])
          = Raise (MkExc IndexError msg)) ∧
  resolve_spec (V:=Z) (SpecStr "rsi_14") = Ok (StoredFactor "rsi_14" "technical").
Proof.
  assert (SpecStr "rsi_14" ∈ [SpecStr (V:=Z) "rsi_14"]) as Hin by constructor.
  split; [exact Hin|]. split; [reflexivity|].
  exact (proj1 (Signal_init_bare_string "s" [SpecStr "rsi_14"] (λ _, Ok []))
           "rsi_14" Hin eq_refl).
Defined.
End OnExamples.


(** ** The incremental-merge storage *)

Section StorageProps.
Import FactorStorage.
Context {V : Type}.
Implicit Types (existing newData : RecordSet V) (rows : list (Z * list (Cell V)))
  (header : list string) (d : Z) (c : string).

Lemma row_cell_fmap header (g : string → Cell V) c :
  c ∈ header → row_cell header (g <$> header) c = g c.
Proof.
  induction header as [|h header IH]; intros Hin; [by apply elem_of_nil in Hin|].
  simpl. destruct (decide (h = c)) as [->|Hne]; [done|].
  apply IH. apply elem_of_cons in Hin as [->|]; done.
Qed.

Lemma find_row_cons rows (p : Z * list (Cell V)) d :
  find_row (p :: rows) d = if decide (p.1 = d) then Some p.2 else find_row rows d.
Proof.
  unfold find_row. simpl. destruct (decide (p.1 = d)) as [H|H].
  - by rewrite bool_decide_eq_true_2.
  - by rewrite bool_decide_eq_false_2.
Qed.

Lemma find_row_nil d : find_row (V:=V) [] d = None.
Proof. done. Qed.

Lemma find_row_app rows1 rows2 d :
  find_row (rows1 ++ rows2) d
  = match find_row rows1 d with Some r => Some r | None => find_row rows2 d end.
Proof.
  induction rows1 as [|p rows1 IH]; [done|].
  rewrite <- app_comm_cons, !find_row_cons. by destruct (decide (p.1 = d)).
Qed.

Lemma find_row_fmap (f : Z * list (Cell V) → Z * list (Cell V)) rows d :
  (∀ p, (f p).1 = p.1) →
  find_row (f <$> rows) d = (λ r, (f (d, r)).2) <$> find_row rows d.
Proof.
  intros Hf. induction rows as [|[d' r] rows IH]; [done|].
  rewrite fmap_cons, !find_row_cons, Hf. simpl.
  destruct (decide (d' = d)) as [->|]; [done|apply IH].
Qed.

Lemma find_row_filter (ds : list Z) rows d :
  find_row (filter (λ p, p.1 ∉ ds) rows) d
  = if decide (d ∉ ds) then find_row rows d else None.
Proof.
  induction rows as [|[d' r] rows IH].
  - rewrite filter_nil, find_row_nil. by destruct (decide (d ∉ ds)).
  - rewrite filter_cons. simpl. destruct (decide (d' ∉ ds)) as [HQ|HQ].
    + rewrite !find_row_cons, IH. simpl.
      destruct (decide (d' = d)) as [->|]; [|done]. by destruct (decide (d ∉ ds)).
    + rewrite IH, find_row_cons. simpl.
      destruct (decide (d' = d)) as [->|]; [|done]. by destruct (decide (d ∉ ds)).
Qed.

Lemma find_row_None rows d : find_row rows d = None ↔ d ∉ rows.*1.
Proof.
  induction rows as [|[d' r] rows IH].
  - rewrite find_row_nil. split; [intros _; apply not_elem_of_nil|done].
  - rewrite find_row_cons, fmap_cons, not_elem_of_cons. simpl.
    destruct (decide (d' = d)) as [->|]; [|rewrite IH]; intuition congruence.
Qed.

Lemma find_row_Some rows d r : find_row rows d = Some r → (d, r) ∈ rows.
Proof.
  induction rows as [|[d' r'] rows IH]; [done|].
  rewrite find_row_cons. simpl. destruct (decide (d' = d)) as [->|].
  - intros [= ->]. left.
  - intros H. right. by apply IH.
Qed.

Lemma find_row_is_Some rows d : is_Some (find_row rows d) ↔ d ∈ rows.*1.
Proof.
  rewrite <- not_eq_None_Some, find_row_None.
  destruct (decide (d ∈ rows.*1)); tauto.
Qed.

Lemma filter_all {A} (P : A → Prop) `{∀ x, Decision (P x)} (l : list A) :
  (∀ x, x ∈ l → P x) → filter P l = l.
Proof.
  induction l as [|x l IH]; intros Hall; [done|].
  rewrite filter_cons_True by (apply Hall; left).
  f_equal. apply IH. intros. apply Hall. by right.
Qed.

Lemma filter_none {A} (P : A → Prop) `{∀ x, Decision (P x)} (l : list A) :
  (∀ x, x ∈ l → ¬ P x) → filter P l = [].
Proof.
  induction l as [|x l IH]; intros Hall; [done|].
  rewrite filter_cons_False by (apply Hall; left).
  apply IH. intros. apply Hall. by right.
Qed.

(** *** Deduplication keeps the first row of every date *)

Lemma elem_of_dedup_rows rows (p : Z * list (Cell V)) :
  p ∈ dedup_rows rows ↔ find_row rows p.1 = Some p.2.
Proof.
  induction rows as [|q rows IH]; simpl.
  - rewrite find_row_nil. split; [by intros ?%elem_of_nil|done].
  - rewrite elem_of_cons, list_elem_of_filter, IH, find_row_cons.
    destruct p as [d r], q as [d' r']. simpl.
    destruct (decide (d' = d)) as [->|Hne]; split.
    + intros [Heq|[? _]]; [|done]. by injection Heq as <-.
    + intros [= ->]. by left.
    + intros [Heq|[_ ?]]; [|done]. injection Heq as -> ->. done.
    + intros ?. right. split; [congruence|done].
Qed.

Lemma dedup_rows_dates rows d : d ∈ (dedup_rows rows).*1 ↔ d ∈ rows.*1.
Proof.
  split.
  - intros ([d' r] & -> & Hin)%list_elem_of_fmap.
    apply elem_of_dedup_rows in Hin. apply find_row_is_Some. by eexists.
  - intros [r Hr]%find_row_is_Some. apply list_elem_of_fmap.
    exists (d, r). split; [done|]. by apply elem_of_dedup_rows.
Qed.

Lemma NoDup_dedup_rows rows : NoDup (dedup_rows rows).*1.
Proof.
  induction rows as [|q rows IH]; [constructor|].
  cbn [dedup_rows]. rewrite fmap_cons. constructor.
  - rewrite list_elem_of_fmap. intros (p & Hp & Hin).
    apply list_elem_of_filter in Hin as [Hne _]. congruence.
  - eapply sublist_NoDup; [exact IH|]. apply fmap_sublist, sublist_filter.
Qed.

Lemma dedup_rows_id rows : NoDup rows.*1 → dedup_rows rows = rows.
Proof.
  induction rows as [|q rows IH]; [done|].
  rewrite fmap_cons. intros [Hq Hn]%NoDup_cons. cbn [dedup_rows]. f_equal.
  rewrite IH by done. apply filter_all. intros p Hp Heq.
  apply Hq. rewrite <- Heq. by apply list_elem_of_fmap_2.
Qed.

(** *** Sorting by date *)

Lemma insert_row_Permutation (p : Z * list (Cell V)) rows :
  insert_row p rows ≡ₚ p :: rows.
Proof.
  induction rows as [|q rows IH]; [done|]. simpl.
  destruct (decide (p.1 ≤ q.1)%Z); [done|]. rewrite IH. apply Permutation_swap.
Qed.

Lemma sort_rows_Permutation rows : sort_rows rows ≡ₚ rows.
Proof.
  induction rows as [|q rows IH]; [done|]. simpl.
  by rewrite insert_row_Permutation, IH.
Qed.

Lemma insert_row_Sorted (p : Z * list (Cell V)) rows :
  Sorted date_le rows → Sorted date_le (insert_row p rows).
Proof.
  induction 1 as [|q rows Hs IH Hhd]; simpl; [by repeat constructor|].
  destruct (decide (p.1 ≤ q.1)%Z) as [Hle|Hgt].
  - constructor; [by constructor|]. by constructor.
  - constructor; [done|].
    destruct Hhd as [|q' rows' Hq]; simpl.
    + constructor. unfold date_le. lia.
    + destruct (decide (p.1 ≤ q'.1)%Z); constructor; [unfold date_le; lia|done].
Qed.

Lemma sort_rows_Sorted rows : Sorted date_le (sort_rows rows).
Proof.
  induction rows as [|q rows IH]; simpl; [constructor|by apply insert_row_Sorted].
Qed.

Lemma sort_rows_id rows : Sorted date_le rows → sort_rows rows = rows.
Proof.
  induction 1 as [|q rows Hs IH Hhd]; [done|]. simpl. rewrite IH.
  destruct Hhd as [|q' rows' Hq]; simpl; [done|].
  by rewrite decide_True.
Qed.

Lemma sort_rows_dates_lt rows :
  NoDup rows.*1 → StronglySorted Z.lt (sort_rows rows).*1.
Proof.
  intros Hn. apply Sorted_le_NoDup_lt.
  - eapply Sorted_fmap; [|apply sort_rows_Sorted]. done.
  - by rewrite sort_rows_Permutation.
Qed.

(** *** The merged content *)

Lemma find_row_upsert existing newData d :
  find_row (rs_rows (upsert existing newData)) d
  = if decide (d ∈ rs_dates existing ∨ d ∈ rs_dates newData)
    then Some (merged_cell existing newData d <$> upsert_header existing newData)
    else None.
Proof.
  unfold upsert. cbn [rs_rows].
  rewrite find_row_app, !find_row_fmap by done.
  rewrite find_row_filter.
  destruct (find_row (rs_rows existing) d) as [er|] eqn:Hex; simpl.
  - rewrite decide_True by (left; apply find_row_is_Some; by rewrite Hex).
    f_equal. apply list_fmap_ext. intros _ c _. unfold merged_cell. by rewrite Hex.
  - apply find_row_None in Hex as Hnot. rewrite decide_True by done.
    destruct (find_row (rs_rows newData) d) as [nr|] eqn:Hnew; simpl.
    + rewrite decide_True by (right; apply find_row_is_Some; by rewrite Hnew).
      f_equal. apply list_fmap_ext. intros _ c _. unfold merged_cell.
      by rewrite Hex, Hnew.
    + apply find_row_None in Hnew. rewrite decide_False; [done|].
      unfold rs_dates in *. tauto.
Qed.

Lemma merged_rows existing newData (p : Z * list (Cell V)) :
  p ∈ rs_rows (merged existing newData) ↔
  (p.1 ∈ rs_dates existing ∨ p.1 ∈ rs_dates newData) ∧
  p.2 = merged_cell existing newData p.1 <$> upsert_header existing newData.
Proof.
  unfold merged. cbn [rs_rows].
  rewrite sort_rows_Permutation, elem_of_dedup_rows, find_row_upsert.
  destruct (decide _) as [Hd|Hd]; [|intuition discriminate].
  split; [intros [= <-]; done|intros [_ ->]; done].
Qed.

Lemma merged_dates existing newData d :
  d ∈ rs_dates (merged existing newData) ↔
  d ∈ rs_dates existing ∨ d ∈ rs_dates newData.
Proof.
  unfold rs_dates at 1. rewrite list_elem_of_fmap. split.
  - intros (p & -> & Hp). by apply merged_rows in Hp as [? _].
  - intros Hd.
    exists (d, merged_cell existing newData d <$> upsert_header existing newData).
    split; [done|]. by apply merged_rows.
Qed.

Lemma merged_dates_sorted existing newData :
  StronglySorted Z.lt (rs_dates (merged existing newData)).
Proof. apply sort_rows_dates_lt, NoDup_dedup_rows. Qed.

Lemma upsert_header_merged existing newData :
  upsert_header (merged existing newData) newData = upsert_header existing newData.
Proof.
  unfold upsert_header at 1. cbn [merged rs_header upsert].
  rewrite filter_none; [apply app_nil_r|].
  intros c Hc Hnot. apply Hnot. unfold upsert_header.
  rewrite elem_of_app, list_elem_of_filter.
  destruct (decide (c ∈ rs_header existing)); tauto.
Qed.

Lemma upsert_merged existing newData :
  upsert (merged existing newData) newData
  = MkRecordSet (rs_header (merged existing newData))
      (rs_rows (merged existing newData)).
Proof.
  unfold upsert at 1. rewrite upsert_header_merged.
  change (rs_header (merged existing newData)) with (upsert_header existing newData).
  f_equal.
  rewrite (filter_none (λ p, p.1 ∉ rs_dates (merged existing newData))).
  2:{ intros p Hp Hnot. apply Hnot. apply merged_dates. right.
      by apply list_elem_of_fmap_2. }
  rewrite fmap_nil, app_nil_r.
  rewrite <- (list_fmap_id (rs_rows (merged existing newData))) at 2.
  apply list_fmap_ext. intros _ [d r] Hp%list_elem_of_lookup_2.
  apply merged_rows in Hp as [_ Hr]. cbn [fst snd] in Hr.
  unfold upsert_row. rewrite upsert_header_merged. cbn [fst snd].
  change (id (d, r)) with (d, r). f_equal.
  etrans; [|symmetry; exact Hr]. apply list_fmap_ext. intros _ c Hc%list_elem_of_lookup_2.
  change (rs_header (merged existing newData)) with (upsert_header existing newData).
  assert (row_cell (upsert_header existing newData) r c
          = merged_cell existing newData d c) as Hcell.
  { rewrite Hr. by apply row_cell_fmap. }
  rewrite Hcell. unfold merged_cell.
  destruct (find_row (rs_rows newData) d); [|done].
  by destruct (bool_decide (c ∈ rs_header newData)).
Qed.

(** Saving the same data over the merged content changes nothing. *)
Lemma merged_idempotent existing newData :
  merged (merged existing newData) newData = merged existing newData.
Proof.
  unfold merged at 1. rewrite upsert_merged. cbn [rs_header rs_rows].
  rewrite dedup_rows_id.
  - rewrite sort_rows_id; [done|]. apply sort_rows_Sorted.
  - apply Sorted_le_NoDup_lt_inv, merged_dates_sorted.
Qed.

(** C4. When the target file exists, saving the same [newData] a second
    time leaves every file as the first save left it.  The content that
    the first save writes has its dates in strictly ascending order (so no
    date twice), they are the dates of the existing file and of [newData],
    and each cell is [newData]'s where [newData] has the date and the
    column and the existing one otherwise. *)
Theorem save_factor_idempotent (base_path : string)
    (files : gmap string (RecordSet V)) existing newData
    (market instrument timeframe category column_name : string) :
  files !! get_file_path base_path market instrument timeframe category
  = Some existing →
  let once :=
    save_factor base_path files newData market instrument timeframe category
      column_name in
  save_factor base_path once newData market instrument timeframe category
    column_name = once ∧
  ∃ content,
    once = <[get_file_path base_path market instrument timeframe category
             := content]> files ∧
    StronglySorted Z.lt (rs_dates content) ∧
    (∀ d, d ∈ rs_dates content ↔ d ∈ rs_dates existing ∨ d ∈ rs_dates newData) ∧
    (∀ d r, (d, r) ∈ rs_rows content →
            r = merged_cell existing newData d <$> rs_header content).
Proof.
  intros Hex once. subst once. unfold save_factor. rewrite Hex.
  rewrite lookup_insert_eq, merged_idempotent, insert_insert_eq. split; [done|].
  exists (merged existing newData). split_and!.
  - done.
  - apply merged_dates_sorted.
  - apply merged_dates.
  - intros d r Hin. apply merged_rows in Hin as [_ Hr]. exact Hr.
Qed.
End StorageProps.

Section StorageExamples.
Import Examples FactorStorage.

(** [test_save_factor_existing_file]: the merge that the test expects. *)
Example test_save_factor_existing_file :
  save_factor "base" test_files new_factor_df "stocks_vn" "AAA" "1d" "technical"
    "volatility_20"
  !! get_file_path "base" "stocks_vn" "AAA" "1d" "technical"
  = Some expected_df.
Proof. by vm_compute. Qed.

Lemma save_factor_idempotent_witness :
  test_files !! get_file_path "base" "stocks_vn" "AAA" "1d" "technical"
  = Some initial_df ∧
  let once :=
    save_factor "base" test_files new_factor_df "stocks_vn" "AAA" "1d" "technical"
      "volatility_20" in
  save_factor "base" once new_factor_df "stocks_vn" "AAA" "1d" "technical"
    "volatility_20" = once ∧
  ∃ content,
    once = <[get_file_path "base" "stocks_vn" "AAA" "1d" "technical"
             := content]> test_files ∧
    StronglySorted Z.lt (rs_dates content) ∧
    (∀ d, d ∈ rs_dates content ↔
          d ∈ rs_dates initial_df ∨ d ∈ rs_dates new_factor_df) ∧
    (∀ d r, (d, r) ∈ rs_rows content →
            r = merged_cell initial_df new_factor_df d <$> rs_header content).
Proof.
  assert (test_files !! get_file_path "base" "stocks_vn" "AAA" "1d" "technical"
          = Some initial_df) as Hex by (vm_compute; reflexivity).
  split; [exact Hex|].
  exact (save_factor_idempotent "base" test_files initial_df new_factor_df
           "stocks_vn" "AAA" "1d" "technical" "volatility_20" Hex).
Defined.
End StorageExamples.


(** * Further properties of the code *)

(** ** More on the effect monad *)

Lemma outcome_bind_Raise {A B} (m : Run A) (f : A → Run B) (e : Exc) :
  outcome (x <- m ;; f x) = Raise e →
  outcome m = Raise e ∨ ∃ a, outcome m = Ok a ∧ outcome (f a) = Raise e.
Proof.
  unfold bind. destruct (outcome m) as [a|e'] eqn:E; simpl; intros H.
  - right. by exists a.
  - left. by injection H as ->.
Qed.

Lemma try_except_Raise {A} (m : Run A) (h : Exc → Run A) (e : Exc) :
  outcome (try_except m h) = Raise e →
  ∃ e0, outcome m = Raise e0 ∧ outcome (h e0) = Raise e.
Proof.
  unfold try_except. destruct (outcome m) as [a|e0] eqn:E; simpl.
  - rewrite E. discriminate.
  - eauto.
Qed.

Lemma try_except_Ok_eq {A} (m : Run A) (h : Exc → Run A) (a : A) :
  outcome m = Ok a → try_except m h = m.
Proof. unfold try_except. by intros ->. Qed.

(** An exception out of a loop is the exception of one of its iterations. *)
Lemma for_each_Raise {A S} (l : list A) (body : S → A → Run S) (s : S) (e : Exc) :
  outcome (for_each l body s) = Raise e →
  ∃ s' x, x ∈ l ∧ outcome (body s' x) = Raise e.
Proof.
  revert s. induction l as [|x l IH]; intros s; simpl; [discriminate|].
  intros [H|(s' & _ & H)]%outcome_bind_Raise.
  - exists s, x. split; [left|done].
  - destruct (IH _ H) as (s'' & y & Hy & Hb). exists s'', y. split; [by right|done].
Qed.

(** The same, for a state that has a property kept by every successful
    iteration. *)
Lemma for_each_Raise_inv {A S} (P : S → Prop) (l : list A) (body : S → A → Run S)
    (s : S) (e : Exc) :
  (∀ s x s', x ∈ l → P s → outcome (body s x) = Ok s' → P s') →
  P s → outcome (for_each l body s) = Raise e →
  ∃ s' x, P s' ∧ x ∈ l ∧ outcome (body s' x) = Raise e.
Proof.
  revert s. induction l as [|x l IH]; intros s Hstep Hs; simpl; [discriminate|].
  intros [H|(s' & Hb & H)]%outcome_bind_Raise.
  - exists s, x. split_and!; [done|left|done].
  - destruct (IH s') as (s'' & y & Hp & Hy & Hby); [| |done|].
    + intros ? ? ? ?. apply Hstep. by right.
    + eapply Hstep; [left|done|done].
    + exists s'', y. split_and!; [done|by right|done].
Qed.

Lemma res_bind_Raise {A B} (r : Res A) (f : A → Res B) (e : Exc) :
  res_bind r f = Raise e → r = Raise e ∨ ∃ a, r = Ok a ∧ f a = Raise e.
Proof. destruct r; simpl; [eauto|]. intros [= ->]. by left. Qed.

(** A property of the state and of the elements already seen, kept by
    every successful iteration, holds of the whole list after the loop. *)
Lemma for_each_inv_prefix {A S} (P : list A → S → Prop) (l : list A)
    (body : S → A → Run S) (s r : S) :
  P [] s →
  (∀ pre x post s s',
      l = pre ++ x :: post → P pre s → outcome (body s x) = Ok s' → P (pre ++ [x]) s') →
  outcome (for_each l body s) = Ok r → P l r.
Proof.
  intros H0 Hstep.
  assert (∀ post pre s, l = pre ++ post → P pre s →
            outcome (for_each post body s) = Ok r → P l r) as Hgen.
  { induction post as [|x post IH]; intros pre s0 Hl Hp Hr.
    - simpl in Hr. injection Hr as <-. by rewrite Hl, app_nil_r.
    - simpl in Hr. apply outcome_bind_Ok in Hr as (s' & Hb & Hr).
      apply (IH (pre ++ [x]) s'); [by rewrite <- app_assoc| |done].
      by eapply Hstep. }
  by apply (Hgen l [] s).
Qed.

(** When the events of an iteration do not depend on the state, the
    events of a loop that ends well are those of its iterations, in
    order. *)
Lemma for_each_trace {A S} (tr : A → list Event) (l : list A)
    (body : S → A → Run S) (s r : S) :
  (∀ s x s', x ∈ l → outcome (body s x) = Ok s' → trace (body s x) = tr x) →
  outcome (for_each l body s) = Ok r →
  trace (for_each l body s) = l ≫= tr.
Proof.
  revert s. induction l as [|x l IH]; intros s Htr Hr; [done|].
  simpl in *. apply outcome_bind_Ok in Hr as (s' & Hb & Hr).
  rewrite (bind_Ok _ _ _ Hb). simpl.
  rewrite (Htr s x s') by (done || left).
  f_equal. apply IH; [|done]. intros ? ? ? ?. apply Htr. by right.
Qed.

(** ** Factor strings, again *)

Lemma partition_dot_app_Some (s a b s2 : string) :
  partition_dot s = Some (a, b) → partition_dot (s +:+ s2) = Some (a, b +:+ s2).
Proof.
  revert a. induction s as [|c s IH]; intros a; simpl; [discriminate|].
  destruct (Ascii.eqb c "."%char); [by intros [= <- <-]|].
  destruct (partition_dot s) as [[a' b']|]; [|discriminate].
  intros [= <- <-]. by rewrite (IH a' eq_refl).
Qed.

Section MoreStrings.
Context {V : Type}.

(** X1. Resolving the full name of a stored factor gives the factor back
    exactly when its category has no dot; with a dot in the category the
    string resolves to the shorter category before that dot, the rest
    moving into the name. *)
Theorem resolve_full_name_round_trip (name category : string) :
  resolve_spec (V:=V) (SpecStr (full_name (V:=V) (StoredFactor name category)))
  = Ok (StoredFactor name category)
  ↔ has_dot category = false.
Proof.
  unfold full_name, resolve_spec, has_dot, split_dot_1. simpl.
  destruct (partition_dot category) as [[a b]|] eqn:E.
  - rewrite (partition_dot_app_Some _ _ _ ("." +:+ name) E).
    split; [|discriminate]. intros [= Hn Hc].
    pose proof (partition_dot_Some _ _ _ E) as [_ Ha]. rewrite Hc, E in Ha.
    discriminate.
  - by rewrite (partition_dot_app _ name E).
Qed.

End MoreStrings.

(** ** Errors and reads of the orchestrator *)

Section MoreOrchestrator.
Context {V : Type} `{!Promote V}.
Variable fs : gmap string (File V).
Variable vq : Vquant.

Implicit Types (tickers cols : list string) (factors : list (FactorSpec V)).

Lemma resolve_factors_Other factors :
  SpecOther ∈ factors →
  resolve_factors factors = Raise (MkExc ValueError "Invalid factor specification").
Proof.
  induction factors as [|f factors IH]; [by intros ?%elem_of_nil|].
  rewrite resolve_factors_cons. intros Hin. destruct f as [s|fac|]; [| |done].
  - destruct (resolve_spec_SpecStr (V:=V) s) as (n & c & ->). simpl.
    rewrite IH; [done|]. by apply elem_of_cons in Hin as [?|?].
  - simpl. rewrite IH; [done|]. by apply elem_of_cons in Hin as [?|?].
Qed.

Lemma resolve_factors_Raise factors e :
  resolve_factors factors = Raise e → exc_kind e = ValueError.
Proof.
  induction factors as [|f factors IH]; [discriminate|].
  rewrite resolve_factors_cons. destruct f as [s|fac|].
  - destruct (resolve_spec_SpecStr (V:=V) s) as (n & c & ->). simpl.
    destruct (resolve_factors factors); simpl; [discriminate|].
    intros [= <-]. by apply IH.
  - simpl. destruct (resolve_factors factors); simpl; [discriminate|].
    intros [= <-]. by apply IH.
  - simpl. by intros [= <-].
Qed.

(** X3. An element of the factor list that is neither a string nor a
    factor makes [get_factors] raise [ValueError] before anything is
    read, whatever the tickers and the other factors are. *)
Theorem get_factors_invalid_spec tickers factors :
  SpecOther ∈ factors →
  get_factors fs vq tickers factors
  = MkRun [] (Raise (MkExc ValueError "Invalid factor specification")).
Proof.
  intros Hin. unfold get_factors. cbn [get_factors_fuel]. unfold get_factors_body.
  by rewrite (resolve_factors_Other _ Hin).
Qed.

(** X4. With no ticker, [get_ohlcv] and (for well-typed factors)
    [get_factors] do not return an empty table: [pd.concat] of no index
    raises [ValueError], and nothing has been read. *)
Theorem empty_tickers_raise cols factors :
  get_ohlcv fs vq [] cols
  = MkRun [] (Raise (MkExc ValueError "No objects to concatenate")) ∧
  (Forall (λ f, f ≠ SpecOther) factors →
   get_factors fs vq [] factors
   = MkRun [] (Raise (MkExc ValueError "No objects to concatenate"))).
Proof.
  split.
  - unfold get_ohlcv. simpl. rewrite bind_ret, map_to_list_empty. done.
  - intros [resolved Hres]%(resolve_factors_valid (V:=V)).
    unfold get_factors. cbn [get_factors_fuel]. unfold get_factors_body.
    rewrite Hres, bind_lift_Ok. simpl. rewrite bind_ret, map_to_list_empty. done.
Qed.

Lemma Forall_False_nil {A} (l : list A) : Forall (λ _, False) l → l = [].
Proof. by destruct 1. Qed.

Lemma trace_lift {A} (r : Res A) : trace (lift r) = [].
Proof. done. Qed.

(** X5. A call of [get_ohlcv] that returns a table has read the OHLCV
    resource of every listed ticker once per occurrence, in the order of
    the list, and nothing else. *)
Theorem get_ohlcv_reads tickers cols df :
  outcome (get_ohlcv fs vq tickers cols) = Ok df →
  trace (get_ohlcv fs vq tickers cols) = EvRead ∘ ohlcv_path vq <$> tickers.
Proof.
  unfold get_ohlcv. intros H.
  apply outcome_bind_Ok in H as (result & Hload & H).
  rewrite (bind_Ok _ _ _ Hload). cbn [trace].
  destruct (load_loop_spec (read_ohlcv fs vq cols) tickers ∅) as
    [(result' & Hr & _ & Htr & _)|(? & ? & ? & ? & _ & _ & _ & Hr & _)];
    simpl in Hr; rewrite Hload in Hr; [|discriminate].
  simpl in Htr. rewrite Htr.
  rewrite (concat_read_traces _ (ohlcv_path vq)) by apply read_ohlcv_trace.
  rewrite <- (app_nil_r (EvRead ∘ ohlcv_path vq <$> tickers)) at 2. f_equal.
  apply Forall_False_nil.
  apply trace_bind_Forall; [by constructor|]. intros all _.
  apply trace_bind_Forall; [|by constructor].
  apply trace_for_each_Forall. intros a t _.
  apply trace_bind_Forall; [by constructor|]. intros df0 _.
  apply trace_bind_Forall; [by constructor|]. intros df1 _.
  apply trace_for_each_Forall. intros b c _. by constructor.
Qed.

(** The fetch of a resolved factor inside [get_factors] is the factor's
    own [fetch]. *)
Lemma fetch_depth (f : Factor V) (ticker : string) :
  fetch fs vq (get_factors_fuel fs vq 1) f ticker = Factor_fetch fs vq f ticker.
Proof.
  unfold Factor_fetch. destruct f as [n c|n c fn deps]; simpl; [done|].
  f_equal. unfold get_factors. simpl. apply get_factors_body_strings.
Qed.

Lemma frame_reindex_Raise {L} (df : DataFrame V L) (target : list Z) e :
  frame_reindex df target = Raise e → exc_kind e = ValueError.
Proof.
  unfold frame_reindex. repeat case_bool_decide; try discriminate. by intros [= <-].
Qed.

Lemma series_reindex_Raise (s : Series V) (target : list Z) e :
  series_reindex s target = Raise e → exc_kind e = ValueError.
Proof.
  unfold series_reindex. repeat case_bool_decide; try discriminate. by intros [= <-].
Qed.

Lemma unified_index_Raise (idxs : list (list Z)) e :
  unified_index idxs = Raise e → exc_kind e = ValueError.
Proof.
  unfold unified_index, pd_concat. destruct idxs; simpl; [|discriminate].
  by intros [= <-].
Qed.

Lemma series_reindex_Raise_inv (s : Series V) (target : list Z) e :
  series_reindex s target = Raise e →
  e = MkExc ValueError "cannot reindex on an axis with duplicate labels"
  ∧ ¬ NoDup s.*1.
Proof.
  unfold series_reindex. repeat case_bool_decide; try discriminate. by intros [= <-].
Qed.

Lemma series_reindex_index (s aligned : Series V) (target : list Z) :
  series_reindex s target = Ok aligned → aligned.*1 = target.
Proof.
  unfold series_reindex. case_bool_decide as Heq; [by intros [= <-]|].
  case_bool_decide; [|discriminate]. intros [= <-].
  rewrite <- list_fmap_compose. apply list_fmap_id.
Qed.

(** The series' own element access fails on a position that is not one
    of its labels. *)
Lemma series_getitem_Raise (s : Series V) (l : Z) e :
  series_getitem s l = Raise e → e = MkExc KeyError (pretty l) ∧ l ∉ s.*1.
Proof.
  unfold series_getitem. destruct (List.find _ s) eqn:E; [discriminate|].
  intros [= <-]. split; [done|].
  intros ([l' c] & -> & Hin)%list_elem_of_fmap.
  apply list_elem_of_In in Hin. apply (find_none _ _ E) in Hin.
  simpl in Hin. by apply bool_decide_eq_false in Hin.
Qed.

Lemma setitem_each_Raise {L} `{EqDecision L} n (cols : list (L * list (Cell V)))
    key value i e :
  setitem_each n cols key value i = Raise e →
  ∃ j : nat, e = MkExc KeyError (pretty (Z.of_nat j)) ∧ Z.of_nat j ∉ value.*1.
Proof.
  revert i. induction cols as [|p cols IH]; intros i; cbn [setitem_each];
    [discriminate|].
  case_bool_decide.
  - intros [Hg|(c & _ & [Hr|(r & _ & ?)]%res_bind_Raise)]%res_bind_Raise;
      [|by eapply IH|discriminate].
    exists i. by apply series_getitem_Raise.
  - intros [Hr|(r & _ & ?)]%res_bind_Raise; [by eapply IH|discriminate].
Qed.

(** A label of a frame with distinct labels is that of one column. *)
Lemma filter_label_NoDup {L} `{EqDecision L} (cols : list (L * list (Cell V))) key :
  NoDup cols.*1 → length (filter (λ p, p.1 = key) cols) ≤ 1.
Proof.
  induction cols as [|[l x] cols IH]; [simpl; lia|].
  rewrite fmap_cons. intros [Hl Hn]%NoDup_cons. cbn [fst] in Hl.
  destruct (decide (l = key)) as [->|Hne].
  - rewrite filter_cons_True by done. rewrite filter_none; [simpl; lia|].
    intros [l' x'] Hin Heq. simpl in Heq. subst l'. apply Hl.
    by apply (list_elem_of_fmap_2 fst) in Hin.
  - rewrite filter_cons_False by done. by apply IH.
Qed.

(** On a frame with distinct labels, the assignment of a series to a
    label of the frame replaces the column of that label. *)
Lemma setitem_series_NoDup {L} `{EqDecision L} (df : DataFrame V L) key value :
  NoDup (df_columns df).*1 →
  setitem_series df key value = Ok (setitem df key value.*2).
Proof.
  intros Hn. unfold setitem_series. rewrite bool_decide_eq_false_2; [done|].
  pose proof (filter_label_NoDup (df_columns df) key Hn). lia.
Qed.

Lemma setitem_series_Raise {L} `{EqDecision L} (df : DataFrame V L) key value e :
  setitem_series df key value = Raise e →
  ¬ NoDup (df_columns df).*1 ∧
  ∃ j : nat, e = MkExc KeyError (pretty (Z.of_nat j)) ∧ Z.of_nat j ∉ value.*1.
Proof.
  intros Hr. split.
  - intros Hn. by rewrite setitem_series_NoDup in Hr.
  - unfold setitem_series in Hr. case_bool_decide; [|discriminate].
    apply res_bind_Raise in Hr as [Hr|(r & _ & ?)]; [|discriminate].
    by eapply setitem_each_Raise.
Qed.

(** One factor of one ticker: a successful fetch, reindexing and
    assignment keeps the row index and the labels of the table. *)
Lemma factor_step_shape rec (all : list Z) (labels : list (string * string))
    (t : string) (f : Factor V) (b b' : WideTable V) :
  (full_name f, t) ∈ labels →
  df_index b = all ∧ (df_columns b).*1 = labels →
  outcome
    (try_except
       (series <- fetch fs vq rec f t ;;
        aligned <- lift (series_reindex series all) ;;
        lift (setitem_series b (full_name f, t) aligned))
       (λ e,
          raise FactorNotFoundError
            ("Failed to compute factor " +:+ full_name f +:+ " for "
               +:+ t +:+ ": " +:+ exc_msg e))) = Ok b' →
  df_index b' = all ∧ (df_columns b').*1 = labels.
Proof.
  intros Hkey [Hb1 Hb2] Hset.
  apply try_except_Ok in Hset; [|done].
  apply outcome_bind_Ok in Hset as (series & _ & Hset).
  apply outcome_bind_Ok in Hset as (aligned & _ & Hset).
  simpl in Hset. apply setitem_series_Ok in Hset as [Hi Hl].
  - by rewrite Hi, Hl.
  - by rewrite Hb2.
Qed.

(** Where an exception of [get_factors] comes from. *)
Lemma get_factors_body_Raise rec tickers factors e :
  outcome (get_factors_body fs vq rec tickers factors) = Raise e →
  exc_kind e = ValueError
  ∨ (∃ t e0,
        t ∈ tickers ∧ outcome (read_base fs vq t) = Raise e0 ∧
        e = MkExc DataLoadError
              ("Failed to load OHLCV for " +:+ t +:+ ": " +:+ exc_msg e0))
  ∨ (∃ resolved f t e0,
        resolve_factors factors = Ok resolved ∧ f ∈ resolved ∧ t ∈ tickers ∧
        (outcome (fetch fs vq rec f t) = Raise e0
         ∨ ∃ series,
             outcome (fetch fs vq rec f t) = Ok series ∧
             (e0 = MkExc ValueError "cannot reindex on an axis with duplicate labels"
              ∧ ¬ NoDup series.*1
              ∨ ¬ NoDup (from_product (full_name <$> resolved) tickers) ∧
                ∃ i : nat,
                  e0 = MkExc KeyError (pretty (Z.of_nat i)) ∧
                  ∀ t' frame,
                    t' ∈ tickers → outcome (read_base fs vq t') = Ok frame →
                    Z.of_nat i ∉ df_index frame)) ∧
        e = MkExc FactorNotFoundError
              ("Failed to compute factor " +:+ full_name f +:+ " for " +:+ t
                 +:+ ": " +:+ exc_msg e0)).
Proof.
  unfold get_factors_body.
  intros [H|(resolved & Hres & H)]%outcome_bind_Raise.
  { left. by apply resolve_factors_Raise in H. }
  simpl in Hres.
  destruct (load_loop_spec (read_base fs vq) tickers ∅) as
    [(base & Hr & Hall & _ & Hm)|(l1 & t & l2 & e0 & Heq & _ & Ht & Hr & _)];
    simpl in Hr.
  - apply outcome_bind_Raise in H as [H|(base' & Hload & H)];
      [rewrite Hr in H; discriminate|].
    rewrite Hr in Hload. injection Hload as <-.
    apply outcome_bind_Raise in H as [H|(all & Hidx & H)].
    { left. by apply unified_index_Raise in H. }
    simpl in Hidx.
    assert (∀ d, d ∈ all ↔
              ∃ t df, t ∈ tickers ∧ outcome (read_base fs vq t) = Ok df ∧
                      d ∈ df_index df) as Hdates.
    { eapply unified_index_loaded; [|exact Hidx].
      intros t. rewrite Hm. by rewrite lookup_empty. }
    set (labels := from_product (full_name <$> resolved) tickers) in *.
    set (Base := λ a : WideTable V, df_index a = all ∧ (df_columns a).*1 = labels).
    assert (∀ f t, f ∈ resolved → t ∈ tickers → (full_name f, t) ∈ labels) as Hkey.
    { intros f t Hf Ht. apply elem_of_from_product. split; [|done].
      by apply list_elem_of_fmap_2. }
    apply (for_each_Raise_inv Base) in H as (a & t & Ha & Ht & H).
    2:{ intros a t a' Ht Ha Hstep.
        apply outcome_bind_Ok in Hstep as (df0 & _ & Hstep).
        apply outcome_bind_Ok in Hstep as (df1 & _ & Hstep).
        revert Hstep. apply (for_each_inv Base); [|done].
        intros b f b' Hf Hb. apply factor_step_shape; [by apply Hkey|done]. }
    2:{ unfold Base, empty_frame. simpl. split; [done|].
        rewrite <- list_fmap_compose. by rewrite list_fmap_id. }
    apply outcome_bind_Raise in H as [H|(df0 & _ & H)].
    { simpl in H. unfold dict_get in H. rewrite Hm, decide_True in H by done.
      rewrite Forall_forall in Hall. destruct (Hall t Ht) as (df & Hdf).
      rewrite Hdf in H. discriminate. }
    apply outcome_bind_Raise in H as [H|(df1 & _ & H)].
    { left. by apply frame_reindex_Raise in H. }
    apply (for_each_Raise_inv Base) in H as (b & f & [Hb1 Hb2] & Hf & H); [|..|done].
    2:{ intros b f b' Hf Hb. apply factor_step_shape; [by apply Hkey|done]. }
    apply try_except_Raise in H as (e0 & Hbody & Hh).
    right. right. exists resolved, f, t, e0. split_and!; [done..| |].
    + apply outcome_bind_Raise in Hbody as [Hb|(series & Hs & Hb)]; [by left|].
      right. exists series. split; [done|].
      apply outcome_bind_Raise in Hb as [Hb|(al & Hal & Hb)].
      { left. by apply series_reindex_Raise_inv in Hb. }
      right. simpl in Hal, Hb.
      apply setitem_series_Raise in Hb as (Hdup & i & -> & Hi).
      split; [by rewrite Hb2 in Hdup|]. exists i. split; [done|].
      intros t' frame Ht' Hframe Hin. apply Hi.
      rewrite (series_reindex_index _ _ _ Hal). apply Hdates. eauto.
    + simpl in Hh. by injection Hh as <-.
  - apply outcome_bind_Raise in H as [H|(base' & Hload & H)];
      [|rewrite Hr in Hload; discriminate].
    rewrite Hr in H. injection H as <-.
    right. left. exists t, e0. split_and!; [|done..].
    rewrite Heq, elem_of_app, elem_of_cons. tauto.
Qed.

(** X6. The exceptions of [get_factors] are of three kinds only:
    [ValueError]; [DataLoadError], for a ticker whose OHLCV resource
    failed to load; and [FactorNotFoundError], which stands for every
    exception inside the [try] of the factor loop, with the message of the
    original exception appended to "Failed to compute factor ...": a
    failure of the factor's fetch (a missing resource, an unreadable one,
    a failing transform); of the reindexing of a fetched series whose
    labels repeat; and of the assignment, which only fails when column
    labels repeat, with the [KeyError] of a position that is no date of
    the tickers' OHLCV resources. *)
Theorem get_factors_error_kinds tickers factors e :
  outcome (get_factors fs vq tickers factors) = Raise e →
  exc_kind e = ValueError
  ∨ (∃ t e0,
        t ∈ tickers ∧ outcome (read_base fs vq t) = Raise e0 ∧
        e = MkExc DataLoadError
              ("Failed to load OHLCV for " +:+ t +:+ ": " +:+ exc_msg e0))
  ∨ (∃ resolved f t e0,
        resolve_factors factors = Ok resolved ∧ f ∈ resolved ∧ t ∈ tickers ∧
        (outcome (Factor_fetch fs vq f t) = Raise e0
         ∨ ∃ series,
             outcome (Factor_fetch fs vq f t) = Ok series ∧
             (e0 = MkExc ValueError "cannot reindex on an axis with duplicate labels"
              ∧ ¬ NoDup series.*1
              ∨ ¬ NoDup (from_product (full_name <$> resolved) tickers) ∧
                ∃ i : nat,
                  e0 = MkExc KeyError (pretty (Z.of_nat i)) ∧
                  ∀ t' frame,
                    t' ∈ tickers → outcome (read_base fs vq t') = Ok frame →
                    Z.of_nat i ∉ df_index frame)) ∧
        e = MkExc FactorNotFoundError
              ("Failed to compute factor " +:+ full_name f +:+ " for " +:+ t
                 +:+ ": " +:+ exc_msg e0)).
Proof.
  unfold get_factors. cbn [get_factors_fuel].
  intros [H|[H|(resolved & f & t & e0 & H)]]%get_factors_body_Raise;
    [by left|by right; left|].
  right. right. exists resolved, f, t, e0. by rewrite <- fetch_depth.
Qed.

(** X7. [get_factors] calls itself through [ComputedFactor.fetch] once at
    most, because dependencies are strings and resolve to stored factors:
    with any bound of two or more on the nesting of calls the result is
    the same, and the bound is never hit. *)
Theorem get_factors_nests_twice (depth : nat) tickers factors :
  get_factors_fuel fs vq (S (S depth)) tickers factors
  = get_factors fs vq tickers factors ∧
  ∀ e, outcome (get_factors fs vq tickers factors) = Raise e →
       exc_kind e ≠ RecursionError.
Proof.
  split.
  - unfold get_factors. simpl.
    apply get_factors_body_ext. intros resolved fac ticker _ _.
    destruct fac as [n c|n c fn deps]; simpl; [done|].
    f_equal. destruct depth as [|depth]; [done|]. simpl.
    apply get_factors_body_strings.
  - unfold get_factors. cbn [get_factors_fuel].
    intros e [H|[(t & e0 & _ & _ & ->)|(? & ? & ? & ? & _ & _ & _ & _ & ->)]]
      %get_factors_body_Raise; [by rewrite H|done..].
Qed.
End MoreOrchestrator.

(** ** What [get_ohlcv] returns *)

Section OhlcvTable.
Context {V : Type} `{!Promote V}.
Variable fs : gmap string (File V).
Variable vq : Vquant.

Implicit Types (tickers cols : list string) (d : Z).

Lemma cell_at_not_in (idx : list Z) (data : list (Cell V)) d :
  d ∉ idx → cell_at idx data d = None.
Proof.
  revert data. induction idx as [|i idx IH]; intros data Hd; [done|].
  destruct data as [|c data]; [done|]. simpl.
  apply not_elem_of_cons in Hd as [Hne Hd]. rewrite decide_False by done. by apply IH.
Qed.

Lemma cell_at_fmap (idx : list Z) (g : Z → Cell V) d :
  cell_at idx (g <$> idx) d = if decide (d ∈ idx) then g d else None.
Proof.
  induction idx as [|i idx IH]; [done|]. rewrite fmap_cons. cbn [cell_at].
  destruct (decide (i = d)) as [->|Hne].
  - by rewrite decide_True by left.
  - rewrite IH. destruct (decide (d ∈ idx)) as [Hin|Hnin].
    + by rewrite decide_True by (by right).
    + rewrite decide_False; [done|]. rewrite elem_of_cons. intuition congruence.
Qed.

Lemma reindex_cell_aligned (idx : list Z) (data : list (Cell V)) (target : list Z) d :
  reindex_cell idx data target d = aligned_cell target idx (cell_at idx data d).
Proof. done. Qed.

Lemma aligned_cell_all (index labels : list Z) (c : Cell V) :
  Forall (λ d, d ∈ labels) index → aligned_cell index labels c = c.
Proof. intros Hall. unfold aligned_cell. by rewrite bool_decide_eq_true_2. Qed.

Lemma aligned_cell_self (index : list Z) (c : Cell V) : aligned_cell index index c = c.
Proof. apply aligned_cell_all. by apply Forall_forall. Qed.

Lemma aligned_cell_None (index labels : list Z) :
  aligned_cell (V:=V) index labels None = None.
Proof. unfold aligned_cell. by case_bool_decide. Qed.

(** A reindexed frame has the target index and the same labels, and its
    cells at the dates of the target are those of the frame, promoted
    when the frame lacks a date of the target. *)
Lemma frame_reindex_Ok {L} (df df' : DataFrame V L) (target : list Z) :
  frame_reindex df target = Ok df' →
  df_index df' = target ∧ (df_columns df').*1 = (df_columns df).*1 ∧
  ∀ l data', (l, data') ∈ df_columns df' →
    ∃ data, (l, data) ∈ df_columns df ∧
      ∀ d, cell_at target data' d
           = if decide (d ∈ target)
             then aligned_cell target (df_index df) (cell_at (df_index df) data d)
             else None.
Proof.
  unfold frame_reindex. case_bool_decide as Heq.
  - intros [= <-]. split_and!; [done..|]. intros l data Hin. exists data.
    split; [done|]. intros d. rewrite Heq, aligned_cell_self.
    destruct (decide (d ∈ target)); [done|]. by apply cell_at_not_in.
  - case_bool_decide; [|discriminate]. intros [= <-]. simpl. split_and!; [done| |].
    + rewrite <- list_fmap_compose. by apply list_fmap_ext.
    + intros l data' ([l0 data] & [= -> ->] & Hin)%list_elem_of_fmap.
      exists data. split; [done|]. intros d. simpl.
      by rewrite cell_at_fmap.
Qed.

Lemma frame_reindex_NoDup {L} (df : DataFrame V L) (target : list Z) :
  NoDup (df_index df) → ∃ df', frame_reindex df target = Ok df'.
Proof.
  intros Hn. unfold frame_reindex. case_bool_decide; [eauto|].
  rewrite bool_decide_eq_true_2 by done. eauto.
Qed.

(** The one column of a frame under a label that occurs once. *)
Lemma getitem_unique {L} `{EqDecision L} (df : DataFrame V L) (col : L) data :
  NoDup (df_columns df).*1 → (col, data) ∈ df_columns df →
  getitem df col = [data].
Proof.
  unfold getitem. destruct df as [idx columns]. simpl.
  induction columns as [|[l x] columns IH]; [by intros _ ?%elem_of_nil|].
  rewrite fmap_cons. intros [Hl Hn]%NoDup_cons [[= <- <-]|Hin]%elem_of_cons.
  - rewrite filter_cons_True by done. rewrite filter_none; [done|].
    intros [l' x'] Hin' Heq. simpl in Heq. subst l'. apply Hl.
    by apply (list_elem_of_fmap_2 fst) in Hin'.
  - rewrite filter_cons_False; [by apply IH|]. simpl. intros ->. apply Hl.
    by apply (list_elem_of_fmap_2 fst) in Hin.
Qed.

Lemma getitem_label {L} `{EqDecision L} (df : DataFrame V L) (col : L) :
  NoDup (df_columns df).*1 → col ∈ (df_columns df).*1 →
  ∃ data, (col, data) ∈ df_columns df ∧ getitem df col = [data].
Proof.
  intros Hn ([l data] & -> & Hin)%list_elem_of_fmap. exists data.
  split; [done|]. by apply getitem_unique.
Qed.

(** The column of a frame under a label: the first, none being empty. *)
Local Abbreviation the_col df col := (default [] (head (getitem df col))).

(** The inner loop of [get_ohlcv] appends the columns of one ticker, field
    by field. *)
Lemma ohlcv_inner_loop (df : DataFrame V string) (t : string) (l : list string)
    (a : DataFrame V (string * string)) :
  NoDup (df_columns df).*1 → NoDup l →
  (∀ c, c ∈ l → c ∈ (df_columns df).*1) →
  (∀ c, c ∈ l → (c, t) ∉ (df_columns a).*1) →
  for_each l (λ a col, lift (setitem_from a (col, t) df col)) a
  = ret (MkFrame (df_index a)
           (df_columns a ++ ((λ c, ((c, t), the_col df c)) <$> l))).
Proof.
  intros Hdf. revert a. induction l as [|c l IH]; intros a Hl Hin Hfresh.
  - simpl. rewrite app_nil_r. by destruct a.
  - apply NoDup_cons in Hl as [Hc Hl]. cbn [for_each].
    destruct (getitem_label df c Hdf (Hin c ltac:(left))) as (data & _ & Hget).
    unfold setitem_from at 1. rewrite Hget. rewrite bind_lift_Ok.
    unfold setitem. rewrite bool_decide_eq_false_2 by (apply Hfresh; left).
    rewrite IH; [| done | intros; apply Hin; by right |].
    + rewrite fmap_cons, Hget. simpl. by rewrite <- app_assoc.
    + intros c' Hc'. simpl. rewrite fmap_app, elem_of_app. simpl.
      rewrite list_elem_of_singleton. intros [Hold|[= ->]]; [|done].
      by apply (Hfresh c'); [right|].
Qed.

(** The outer loop of [get_ohlcv] appends the tickers' blocks of columns,
    ticker by ticker. *)
Lemma ohlcv_outer_loop (result : gmap string (DataFrame V string)) (all : list Z)
    (re : string → DataFrame V string) cols (l : list string)
    (a : DataFrame V (string * string)) :
  NoDup l → NoDup cols →
  (∀ t, t ∈ l →
     ∃ df0, result !! t = Some df0 ∧ frame_reindex df0 all = Ok (re t) ∧
            (df_columns (re t)).*1 = cols) →
  (∀ t c, t ∈ l → (c, t) ∉ (df_columns a).*1) →
  for_each l
    (λ (aligned_data : DataFrame V (string * string)) ticker,
       df0 <- lift (dict_get result ticker) ;;
       df <- lift (frame_reindex df0 all) ;;
       for_each cols
         (λ aligned_data col, lift (setitem_from aligned_data (col, ticker) df col))
         aligned_data)
    a
  = ret (MkFrame (df_index a)
           (df_columns a ++ (l ≫= λ t, (λ c, ((c, t), the_col (re t) c)) <$> cols))).
Proof.
  intros Hl Hcols. revert a. induction l as [|t l IH]; intros a Hre Hfresh.
  - simpl. rewrite app_nil_r. by destruct a.
  - apply NoDup_cons in Hl as [Ht Hl]. cbn [for_each].
    destruct (Hre t ltac:(left)) as (df0 & Hres & Hri & Hlab).
    unfold dict_get at 1. rewrite Hres, bind_lift_Ok, Hri, bind_lift_Ok.
    rewrite ohlcv_inner_loop; [|by rewrite Hlab|done|by rewrite Hlab|].
    2:{ intros c _. apply Hfresh. left. }
    rewrite bind_ret, IH; [|done|intros; apply Hre; by right|].
    + cbn [df_index df_columns]. by rewrite bind_cons, app_assoc.
    + intros t' c Ht'. cbn [df_index df_columns]. rewrite fmap_app, elem_of_app.
      intros [Hold|Hnew].
      * by apply (Hfresh t' c); [right|].
      * rewrite <- list_fmap_compose in Hnew.
        apply list_elem_of_fmap in Hnew as (c' & [= _ ->] & _). done.
Qed.

Lemma read_ohlcv_Some cols t tbl dates :
  fs !! ohlcv_path vq t = Some (Parquet tbl) → pq_date tbl = Some dates →
  "date" ∉ cols → (∀ c, c ∈ cols → is_Some (column_of (pq_columns tbl) c)) →
  outcome (read_ohlcv fs vq cols t)
  = Ok (MkFrame dates ((λ c, (c, default [] (column_of (pq_columns tbl) c))) <$> cols)).
Proof.
  intros Hf Hd Hdate Hcols. apply read_parquet_Ok in Hf. unfold read_ohlcv.
  rewrite (bind_Ok _ _ _ Hf). simpl. unfold select_by_date. rewrite Hd.
  destruct (List.find _ cols) as [c|] eqn:E.
  - apply find_some in E as [Hin Hc]. apply bool_decide_eq_true in Hc as [_ Hc].
    apply list_elem_of_In, Hcols in Hin. rewrite Hc in Hin. by destruct Hin.
  - by rewrite bool_decide_eq_false_2.
Qed.

Lemma length_bind_fmap {A B C} (g : A → B → C) (l : list A) (k : list B) :
  length (l ≫= λ x, g x <$> k) = (length l * length k)%nat.
Proof.
  induction l as [|x l IH]; [done|].
  rewrite bind_cons, length_app, length_fmap, IH. simpl. lia.
Qed.

Lemma fmap_bind_fmap {A B C D} (h : C → D) (g : A → B → C) (l : list A) (k : list B) :
  h <$> (l ≫= λ x, g x <$> k) = l ≫= λ x, (λ y, h (g x y)) <$> k.
Proof.
  induction l as [|x l IH]; [done|].
  rewrite !bind_cons, fmap_app, IH. by rewrite <- list_fmap_compose.
Qed.

Lemma length_from_product (outer inner : list string) :
  length (from_product outer inner) = (length outer * length inner)%nat.
Proof. apply length_prod. Qed.

Lemma NoDup_from_product (outer inner : list string) :
  NoDup outer → NoDup inner → NoDup (from_product outer inner).
Proof.
  intros Ho Hi. rewrite from_product_flat.
  induction Ho as [|o outer Hno Ho IH]; [constructor|].
  rewrite bind_cons. apply NoDup_app. split_and!.
  - apply NoDup_fmap_2; [|done]. by intros ? ? [= ->].
  - intros [a b] (b0 & Heq & _)%list_elem_of_fmap (o' & Hin & Ho')%list_elem_of_bind.
    injection Heq as -> ->.
    apply list_elem_of_fmap in Hin as (b' & Heq' & _). injection Heq' as -> _.
    done.
  - exact IH.
Qed.

(** What [get_ohlcv] returns on distinct tickers and fields that every
    resource has: the labels are the product of the fields and the
    tickers, and the columns under them are the tickers' columns, ticker
    by ticker. *)
Lemma get_ohlcv_forward tickers cols :
  tickers ≠ [] → NoDup tickers → NoDup cols → "date" ∉ cols →
  (∀ t, t ∈ tickers →
     ∃ tbl dates,
       fs !! ohlcv_path vq t = Some (Parquet tbl) ∧ pq_date tbl = Some dates ∧
       NoDup dates ∧ ∀ c, c ∈ cols → is_Some (column_of (pq_columns tbl) c)) →
  ∃ all col_data,
    get_ohlcv fs vq tickers cols
    = MkRun (EvRead ∘ ohlcv_path vq <$> tickers)
        (Ok (MkFrame all
               (zip (from_product cols tickers)
                    (tickers ≫= λ t, col_data t <$> cols)))) ∧
    ∀ t c d, t ∈ tickers → c ∈ cols →
             cell_at all (col_data t c) d
             = aligned_cell all (ohlcv_dates fs vq t) (ohlcv_cell fs vq t c d).
Proof.
  intros Hne Hnt Hnc Hdate Hfiles.
  assert (∀ t, t ∈ tickers →
            ∃ tbl dates,
              fs !! ohlcv_path vq t = Some (Parquet tbl) ∧ pq_date tbl = Some dates ∧
              NoDup dates ∧
              outcome (read_ohlcv fs vq cols t)
              = Ok (MkFrame dates
                      ((λ c, (c, default [] (column_of (pq_columns tbl) c))) <$> cols)))
    as Hread.
  { intros t Ht. destruct (Hfiles t Ht) as (tbl & dates & Hf & Hd & Hn & Hc).
    exists tbl, dates. split_and!; [done..|]. by apply read_ohlcv_Some. }
  unfold get_ohlcv.
  destruct (load_loop_spec (read_ohlcv fs vq cols) tickers ∅) as
    [(result & Hr & _ & Htr & Hm)|(l1 & t & l2 & e & Heq & _ & Ht & _)].
  2:{ destruct (Hread t) as (? & ? & _ & _ & _ & Hok).
      - rewrite Heq, elem_of_app, elem_of_cons. tauto.
      - rewrite Hok in Ht. discriminate. }
  simpl in Hr, Htr. rewrite (bind_Ok _ _ _ Hr), Htr. cbv beta.
  rewrite (concat_read_traces _ (ohlcv_path vq)) by apply read_ohlcv_trace.
  assert (∀ t, t ∈ tickers →
            ∃ tbl dates,
              fs !! ohlcv_path vq t = Some (Parquet tbl) ∧ pq_date tbl = Some dates ∧
              NoDup dates ∧
              result !! t
              = Some (MkFrame dates
                        ((λ c, (c, default [] (column_of (pq_columns tbl) c))) <$> cols)))
    as Hres.
  { intros t Ht. destruct (Hread t Ht) as (tbl & dates & Hf & Hd & Hn & Hok).
    exists tbl, dates. split_and!; [done..|].
    by rewrite Hm, decide_True, Hok by done. }
  destruct (unified_index (df_index <$> (map_to_list result).*2)) as [all|e] eqn:Hall.
  2:{ exfalso. unfold unified_index, pd_concat in Hall.
      destruct (df_index <$> (map_to_list result).*2) eqn:E; [|discriminate].
      apply fmap_nil_inv, fmap_nil_inv, map_to_list_empty_iff in E.
      destruct tickers as [|t0 ?]; [done|].
      destruct (Hres t0 ltac:(left)) as (? & ? & _ & _ & _ & Hl).
      rewrite E, lookup_empty in Hl. discriminate. }
  assert (∀ t, result !! t
               = if decide (t ∈ tickers)
                 then match outcome (read_ohlcv fs vq cols t) with
                      | Ok df => Some df | Raise _ => None end
                 else None) as Hm'.
  { intros t. rewrite Hm. by rewrite lookup_empty. }
  destruct (unified_index_loaded (read_ohlcv fs vq cols) tickers result all Hm' Hall)
    as (_ & _ & Hmem).
  set (re := λ t, match result !! t with
                  | Some df0 => match frame_reindex df0 all with
                                | Ok df => df
                                | Raise _ => df0
                                end
                  | None => MkFrame [] []
                  end).
  assert (∀ t, t ∈ tickers →
            ∃ df0, result !! t = Some df0 ∧ frame_reindex df0 all = Ok (re t) ∧
                   (df_columns (re t)).*1 = cols) as Hre.
  { intros t Ht. destruct (Hres t Ht) as (tbl & dates & _ & _ & Hn & Hl).
    eexists. split; [exact Hl|]. unfold re. rewrite Hl.
    destruct (frame_reindex_NoDup (MkFrame dates
                ((λ c, (c, default [] (column_of (pq_columns tbl) c))) <$> cols)) all Hn)
      as (df' & Hdf').
    rewrite Hdf'. split; [done|].
    apply frame_reindex_Ok in Hdf' as (_ & -> & _). simpl.
    rewrite <- list_fmap_compose. by rewrite list_fmap_id. }
  rewrite !bind_lift_Ok.
  rewrite (ohlcv_outer_loop result all re cols tickers (MkFrame all []) Hnt Hnc Hre)
    by (intros; apply not_elem_of_nil).
  rewrite !bind_ret. unfold set_columns. cbn [df_columns df_index app].
  rewrite length_from_product, length_bind_fmap, Nat.mul_comm.
  rewrite bool_decide_eq_true_2 by done. unfold lift. cbn [trace outcome].
  rewrite app_nil_r. exists all, (λ t c, the_col (re t) c).
  split.
  { by rewrite fmap_bind_fmap. }
  intros t c d Ht Hc.
  destruct (Hres t Ht) as (tbl & dates & Hf & Hd & Hn & Hl).
  destruct (Hre t Ht) as (df0 & Hl' & Hri & Hlab).
  rewrite Hl in Hl'. injection Hl' as <-.
  destruct (getitem_label (re t) c) as (data' & Hin' & Hget);
    [by rewrite Hlab|by rewrite Hlab|].
  rewrite Hget. simpl.
  apply frame_reindex_Ok in Hri as (_ & _ & Hcells).
  destruct (Hcells c data' Hin') as (data & Hin & Hcell). rewrite Hcell.
  simpl in Hin. apply list_elem_of_fmap in Hin as (c0 & [= <- ->] & _).
  unfold ohlcv_cell, ohlcv_dates. rewrite Hf, Hd. simpl.
  destruct (decide (d ∈ all)) as [|Hnot]; [done|].
  rewrite cell_at_not_in; [by rewrite aligned_cell_None|].
  intros Hdin. apply Hnot, Hmem.
  destruct (Hread t Ht) as (tbl' & dates' & Hf' & Hd' & _ & Hok).
  rewrite Hf in Hf'. injection Hf' as <-. rewrite Hd in Hd'. injection Hd' as <-.
  eauto.
Qed.

(** The tickers and fields in the order in which [get_ohlcv] fills its
    columns: ticker by ticker, and for each ticker field by field. *)
Lemma ticker_major_data {A} (g : string → string → A) tickers cols :
  (tickers ≫= λ t, g t <$> cols)
  = (λ p, g p.2 p.1) <$> (tickers ≫= λ t, (λ c, (c, t)) <$> cols).
Proof. by rewrite fmap_bind_fmap. Qed.

Lemma elem_of_ticker_major tickers cols c t :
  (c, t) ∈ (tickers ≫= λ t, (λ c, (c, t)) <$> cols) ↔ t ∈ tickers ∧ c ∈ cols.
Proof.
  rewrite list_elem_of_bind. split.
  - intros (t' & (c' & Heq & Hc)%list_elem_of_fmap & Ht). by injection Heq as -> ->.
  - intros [Ht Hc]. exists t. split; [|done]. apply list_elem_of_fmap. eauto.
Qed.

Lemma frame_cell_zip {L} `{EqDecision L} (idx : list Z) (labels : list L)
    (datas : list (list (Cell V))) (k : nat) (l : L) data d :
  NoDup labels → length labels = length datas →
  labels !! k = Some l → datas !! k = Some data →
  frame_cell (MkFrame idx (zip labels datas)) l d = cell_at idx data d.
Proof.
  intros Hn Hlen Hl Hd. unfold frame_cell.
  rewrite (getitem_unique _ l data); [done| |].
  - simpl. rewrite fst_zip by lia. done.
  - simpl. apply (list_elem_of_lookup_2 _ k). by apply lookup_zip_Some.
Qed.

(** With one field, or one ticker, the two orders are the same. *)
Lemma product_orders_agree tickers cols :
  length cols = 1%nat ∨ length tickers = 1%nat →
  from_product cols tickers = (tickers ≫= λ t, (λ c, (c, t)) <$> cols).
Proof.
  intros [Hc|Ht].
  - destruct cols as [|c [|? ?]]; try discriminate.
    unfold from_product. simpl. rewrite app_nil_r.
    induction tickers as [|t tickers IH]; [done|].
    rewrite bind_cons. simpl. by f_equal.
  - destruct tickers as [|t [|? ?]]; try discriminate.
    rewrite from_product_single, bind_cons. simpl. by rewrite app_nil_r.
Qed.

(** X8. For distinct tickers and distinct fields other than "date", when
    every ticker's OHLCV resource has a date column without repeated
    dates and has every field, [get_ohlcv] returns a table after one read
    per ticker.  The column labelled with the k-th pair of the product of
    the fields and the tickers (field by field) holds the values of the
    k-th pair in the order ticker by ticker, field by field: at each date
    of that ticker the stored value, as it is when the ticker has every
    date of the table and after the promotion of its column when the
    ticker lacks one, and the missing marker elsewhere. *)
Theorem get_ohlcv_table_layout tickers cols :
  tickers ≠ [] → NoDup tickers → NoDup cols → "date" ∉ cols →
  (∀ t, t ∈ tickers →
     ∃ tbl dates,
       fs !! ohlcv_path vq t = Some (Parquet tbl) ∧ pq_date tbl = Some dates ∧
       NoDup dates ∧ ∀ c, c ∈ cols → is_Some (column_of (pq_columns tbl) c)) →
  ∃ df,
    get_ohlcv fs vq tickers cols = MkRun (EvRead ∘ ohlcv_path vq <$> tickers) (Ok df) ∧
    ∀ k c' t' c t d,
      from_product cols tickers !! k = Some (c', t') →
      (tickers ≫= λ t, (λ c, (c, t)) <$> cols) !! k = Some (c, t) →
      frame_cell df (c', t') d
      = aligned_cell (df_index df) (ohlcv_dates fs vq t) (ohlcv_cell fs vq t c d).
Proof.
  intros Hne Hnt Hnc Hdate Hfiles.
  destruct (get_ohlcv_forward tickers cols Hne Hnt Hnc Hdate Hfiles)
    as (all & col_data & Hrun & Hcell).
  eexists. split; [exact Hrun|].
  intros k c' t' c t d Hlab Hmaj. cbn [df_index].
  rewrite (frame_cell_zip all _ _ k (c', t') (col_data t c)).
  - apply list_elem_of_lookup_2, elem_of_ticker_major in Hmaj as [Ht Hc].
    by apply Hcell.
  - by apply NoDup_from_product.
  - by rewrite length_from_product, length_bind_fmap, Nat.mul_comm.
  - done.
  - rewrite (ticker_major_data col_data), list_lookup_fmap, Hmaj. done.
Qed.

(** X9. Under the same conditions, when one field is requested, or one
    ticker, every column of the table holds the data of its label: the
    cell of (field, ticker) at a date is the value that the ticker's
    resource has for the field at that date, and the missing marker at a
    date that the ticker does not have.  The value is the stored one
    exactly when the ticker has every date of the table; when it lacks
    one, its column holds a missing marker and the values are the
    promoted ones. *)
Theorem get_ohlcv_cells_single tickers cols :
  tickers ≠ [] → NoDup tickers → NoDup cols → "date" ∉ cols →
  (∀ t, t ∈ tickers →
     ∃ tbl dates,
       fs !! ohlcv_path vq t = Some (Parquet tbl) ∧ pq_date tbl = Some dates ∧
       NoDup dates ∧ ∀ c, c ∈ cols → is_Some (column_of (pq_columns tbl) c)) →
  length cols = 1%nat ∨ length tickers = 1%nat →
  ∃ df,
    outcome (get_ohlcv fs vq tickers cols) = Ok df ∧
    ∀ t c d, t ∈ tickers → c ∈ cols →
      frame_cell df (c, t) d
      = if bool_decide (Forall (λ d', d' ∈ ohlcv_dates fs vq t) (df_index df))
        then ohlcv_cell fs vq t c d
        else promote <$> ohlcv_cell fs vq t c d.
Proof.
  intros Hne Hnt Hnc Hdate Hfiles Hone.
  destruct (get_ohlcv_forward tickers cols Hne Hnt Hnc Hdate Hfiles)
    as (all & col_data & Hrun & Hcell).
  eexists. split; [by rewrite Hrun|].
  intros t c d Ht Hc. cbn [df_index].
  assert ((c, t) ∈ (tickers ≫= λ t, (λ c, (c, t)) <$> cols)) as Hin
    by (by apply elem_of_ticker_major).
  apply list_elem_of_lookup_1 in Hin as [k Hk].
  rewrite (frame_cell_zip all _ _ k (c, t) (col_data t c)).
  - by apply Hcell.
  - by apply NoDup_from_product.
  - by rewrite length_from_product, length_bind_fmap, Nat.mul_comm.
  - by rewrite product_orders_agree.
  - rewrite (ticker_major_data col_data), list_lookup_fmap, Hk. done.
Qed.
End OhlcvTable.

(** ** What [get_factors] returns and reads *)

Section FactorsTable.
Context {V : Type} `{!Promote V}.
Variable fs : gmap string (File V).
Variable vq : Vquant.

Implicit Types (tickers : list string) (factors : list (FactorSpec V)) (d : Z).

Lemma frame_cell_setitem_eq {L} `{EqDecision L} (a : DataFrame V L) (k : L) data d :
  k ∈ (df_columns a).*1 →
  frame_cell (setitem a k data) k d = cell_at (df_index a) data d.
Proof.
  intros Hin. unfold frame_cell, getitem, setitem.
  rewrite bool_decide_eq_true_2 by done. cbn [df_columns df_index].
  destruct a as [idx columns]. cbn [df_columns df_index] in *.
  induction columns as [|[l x] columns IH]; [by apply elem_of_nil in Hin|].
  rewrite fmap_cons. cbn [fst]. case_bool_decide as Hl.
  - by rewrite filter_cons_True by done.
  - rewrite filter_cons_False by done. apply IH.
    rewrite fmap_cons in Hin. apply elem_of_cons in Hin as [Heq|Hin]; [|done].
    simpl in Heq. congruence.
Qed.

Lemma getitem_setitem_ne {L} `{EqDecision L} (a : DataFrame V L) (k k' : L) data :
  k ≠ k' → getitem (setitem a k data) k' = getitem a k'.
Proof.
  intros Hne. unfold getitem, setitem. case_bool_decide as Hk; cbn [df_columns].
  - f_equal. clear Hk. induction (df_columns a) as [|[l x] columns IH]; [done|].
    rewrite fmap_cons, !filter_cons, IH. cbn [fst].
    case_bool_decide as Hl; [|done]. subst l. cbn [fst].
    rewrite !decide_False by done. done.
  - rewrite filter_app, filter_cons_False, filter_nil, app_nil_r by done. done.
Qed.

Lemma frame_cell_setitem_ne {L} `{EqDecision L} (a : DataFrame V L) (k k' : L) data d :
  k ≠ k' → frame_cell (setitem a k data) k' d = frame_cell a k' d.
Proof.
  intros Hne. unfold frame_cell. rewrite getitem_setitem_ne by done.
  by rewrite setitem_index.
Qed.

Lemma NoDup_fmap_inj {A B} (g : A → B) (l : list A) (x y : A) :
  NoDup (g <$> l) → x ∈ l → y ∈ l → g x = g y → x = y.
Proof.
  induction l as [|z l IH]; [by intros _ ?%elem_of_nil|].
  rewrite fmap_cons. intros [Hz Hn]%NoDup_cons Hx Hy Heq.
  apply elem_of_cons in Hx as [->|Hx]; apply elem_of_cons in Hy as [->|Hy].
  - done.
  - exfalso. apply Hz. rewrite Heq. by apply list_elem_of_fmap_2.
  - exfalso. apply Hz. rewrite <- Heq. by apply list_elem_of_fmap_2.
  - by apply IH.
Qed.

Lemma get_factors_eq_body tickers factors :
  get_factors fs vq tickers factors
  = get_factors_body fs vq (get_factors_fuel fs vq 1) tickers factors.
Proof. done. Qed.

(** The cells of a reindexed series at the dates of the target. *)
Lemma series_reindex_Ok (s aligned : Series V) (target : list Z) :
  series_reindex s target = Ok aligned →
  ∀ d, cell_at target aligned.*2 d
       = if decide (d ∈ target)
         then aligned_cell target s.*1 (series_cell s d)
         else None.
Proof.
  unfold series_reindex, series_cell. case_bool_decide as Heq.
  - intros [= <-] d. rewrite <- Heq, aligned_cell_self.
    destruct (decide (d ∈ s.*1)); [done|]. by apply cell_at_not_in.
  - case_bool_decide; [|discriminate]. intros [= <-] d.
    rewrite <- list_fmap_compose.
    change (snd ∘ (λ d0, (d0, reindex_cell s.*1 s.*2 target d0)))
      with (reindex_cell s.*1 s.*2 target).
    by rewrite cell_at_fmap.
Qed.

(** What the columns of a table returned by [get_factors] hold: every
    factor has been fetched for every ticker, and when no label is
    repeated the column of a factor and a ticker is the fetched series on
    the row index. *)
Lemma get_factors_body_columns rec tickers factors (df : WideTable V) resolved :
  outcome (get_factors_body fs vq rec tickers factors) = Ok df →
  resolve_factors factors = Ok resolved →
  ∀ f t, f ∈ resolved → t ∈ tickers →
    ∃ series,
      outcome (fetch fs vq rec f t) = Ok series ∧
      (NoDup tickers → NoDup (full_name <$> resolved) →
       ∀ d, frame_cell df (full_name f, t) d
            = if decide (d ∈ df_index df)
              then aligned_cell (df_index df) series.*1 (series_cell series d)
              else None).
Proof.
  intros H Hres. unfold get_factors_body in H.
  rewrite Hres, bind_lift_Ok in H.
  apply outcome_bind_Ok in H as (base & _ & H).
  apply outcome_bind_Ok in H as (all & _ & H).
  set (labels := from_product (full_name <$> resolved) tickers) in *.
  set (Q := λ (a : WideTable V) (f : Factor V) (t : string),
              ∃ series,
                outcome (fetch fs vq rec f t) = Ok series ∧
                (NoDup tickers → NoDup (full_name <$> resolved) →
                 ∀ d, frame_cell a (full_name f, t) d
                      = if decide (d ∈ all)
                        then aligned_cell all series.*1 (series_cell series d)
                        else None)).
  set (Base := λ a : WideTable V, df_index a = all ∧ (df_columns a).*1 = labels).
  assert (Base df ∧ ∀ t, t ∈ tickers → ∀ f, f ∈ resolved → Q df f t) as [[Hidx _] HQ].
  { revert H.
    apply (for_each_inv_prefix
             (λ pre a, Base a ∧ ∀ t, t ∈ pre → ∀ f, f ∈ resolved → Q a f t)).
    { split; [|by intros t ?%elem_of_nil]. unfold Base, empty_frame. simpl.
      split; [done|]. rewrite <- list_fmap_compose. by rewrite list_fmap_id. }
    intros pre t post a a' Htk [Hbase Hpre] Hstep.
    assert (t ∈ tickers) as Ht by (rewrite Htk, elem_of_app, elem_of_cons; tauto).
    apply outcome_bind_Ok in Hstep as (df0 & _ & Hstep).
    apply outcome_bind_Ok in Hstep as (df1 & _ & Hstep).
    assert (Base a' ∧ (∀ t', t' ∈ pre → ∀ f, f ∈ resolved → Q a' f t')
            ∧ ∀ f, f ∈ resolved → Q a' f t) as (Hb' & Hpre' & Hcur).
    { revert Hstep.
      apply (for_each_inv_prefix
               (λ pref b, Base b ∧ (∀ t', t' ∈ pre → ∀ f, f ∈ resolved → Q b f t')
                          ∧ ∀ f, f ∈ pref → Q b f t)).
      { split_and!; [done..|]. by intros f ?%elem_of_nil. }
      intros pref f postf b b' Hfs (Hb & Hbpre & Hbcur) Hset.
      assert (f ∈ resolved) as Hf by (rewrite Hfs, elem_of_app, elem_of_cons; tauto).
      assert ((full_name f, t) ∈ labels) as Hkey.
      { apply elem_of_from_product. split; [|done]. by apply list_elem_of_fmap_2. }
      pose proof (factor_step_shape fs vq rec all labels t f b b' Hkey Hb Hset) as Hb'.
      apply try_except_Ok in Hset; [|done].
      apply outcome_bind_Ok in Hset as (series & Hfetch & Hset).
      apply outcome_bind_Ok in Hset as (aligned & Hal & Hset).
      simpl in Hal, Hset. destruct Hb as [Hbi Hbl].
      assert (NoDup tickers → NoDup (full_name <$> resolved) →
              b' = setitem b (full_name f, t) aligned.*2) as Heq.
      { intros Hnt Hnn. rewrite setitem_series_NoDup in Hset; [by injection Hset|].
        rewrite Hbl. by apply NoDup_from_product. }
      assert (Q b' f t) as Hnew.
      { exists series. split; [done|]. intros Hnt Hnn d. rewrite (Heq Hnt Hnn).
        rewrite frame_cell_setitem_eq, Hbi by (by rewrite Hbl).
        by apply series_reindex_Ok. }
      assert (∀ f' t', f' ∈ resolved → Q b f' t' → Q b' f' t') as Hkeep.
      { intros f' t' Hf' (series' & Hfetch' & Hcells). exists series'.
        split; [done|]. intros Hnt Hnn d.
        destruct (decide ((full_name f, t) = (full_name f', t'))) as [Hsame|Hne].
        - injection Hsame as Hn <-.
          pose proof (NoDup_fmap_inj full_name resolved f f' Hnn Hf Hf' Hn) as <-.
          destruct Hnew as (series0 & Hfetch0 & Hcells0).
          rewrite Hfetch0 in Hfetch'. injection Hfetch' as <-. by apply Hcells0.
        - rewrite (Heq Hnt Hnn), frame_cell_setitem_ne by done. by apply Hcells. }
      split_and!.
      - done.
      - intros t' Ht' f' Hf'. apply Hkeep; [done|]. by apply Hbpre.
      - intros f' [Hf'|Hlast%list_elem_of_singleton]%elem_of_app; [|by subst f'].
        apply Hkeep; [|by apply Hbcur].
        rewrite Hfs, elem_of_app. by left. }
    split; [done|].
    intros t' [Ht'|Hlast%list_elem_of_singleton]%elem_of_app;
      [by apply Hpre'|by subst t']. }
  intros f t Hf Ht. destruct (HQ t Ht f Hf) as (series & Hfetch & Hcells).
  exists series. split; [done|]. intros Hnt Hnn d. rewrite Hidx. by apply Hcells.
Qed.

(** What a call of [get_factors] that returns a table has done: the reads
    of the tickers' OHLCV resources, then the fetches, ticker by ticker
    and factor by factor. *)
Lemma get_factors_body_trace rec tickers factors (df : WideTable V) resolved :
  outcome (get_factors_body fs vq rec tickers factors) = Ok df →
  resolve_factors factors = Ok resolved →
  trace (get_factors_body fs vq rec tickers factors)
  = (EvRead ∘ ohlcv_path vq <$> tickers)
      ++ (tickers ≫= λ t, resolved ≫= λ f, trace (fetch fs vq rec f t)).
Proof.
  intros H Hres. revert H. unfold get_factors_body.
  rewrite Hres, bind_lift_Ok. intros H.
  apply outcome_bind_Ok in H as (base & Hload & H).
  rewrite (bind_Ok _ _ _ Hload). cbn [trace]. cbv beta in *.
  destruct (load_loop_spec (read_base fs vq) tickers ∅) as
    [(base' & Hr & _ & Htr & _)|(? & ? & ? & ? & _ & _ & _ & Hr & _)];
    simpl in Hr; rewrite Hload in Hr; [|discriminate].
  simpl in Htr. rewrite Htr.
  rewrite (concat_read_traces _ (ohlcv_path vq)) by apply read_base_trace.
  f_equal.
  apply outcome_bind_Ok in H as (all & Hall & H). simpl in Hall.
  rewrite Hall, bind_lift_Ok.
  apply (for_each_trace (λ t, resolved ≫= λ f, trace (fetch fs vq rec f t)))
    with (r := df); [|done].
  intros a t a' _ Hstep.
  apply outcome_bind_Ok in Hstep as (df0 & Hd0 & Hstep).
  apply outcome_bind_Ok in Hstep as (df1 & Hd1 & Hstep).
  simpl in Hd0, Hd1. rewrite Hd0, bind_lift_Ok, Hd1, bind_lift_Ok.
  apply (for_each_trace (λ f, trace (fetch fs vq rec f t))) with (r := a');
    [|done].
  intros b f b' _ Hset.
  apply try_except_Ok in Hset as Hbody; [|done].
  rewrite (try_except_Ok_eq _ _ _ Hbody).
  apply outcome_bind_Ok in Hbody as (series & Hfetch & Hrest).
  rewrite (bind_Ok _ _ _ Hfetch). cbn [trace].
  rewrite <- (app_nil_r (trace (fetch fs vq rec f t))) at 2. f_equal.
  apply Forall_False_nil. apply trace_bind_Forall; by constructor.
Qed.

(** X10. Where [get_factors] returns a table for distinct tickers and
    factors of distinct full names, the column labelled (full name,
    ticker) holds the series that the factor's fetch gives for that
    ticker, reindexed on the row index: at a date of the index the cell is
    the value of the series there (the missing marker when the series has
    no such label), the value being the fetched one exactly when the
    series has every date of the index, and the promoted one when it
    lacks one; labels of the series outside the index are not in the
    table. *)
Theorem get_factors_cells tickers factors df resolved :
  outcome (get_factors fs vq tickers factors) = Ok df →
  resolve_factors factors = Ok resolved →
  NoDup tickers → NoDup (full_name <$> resolved) →
  ∀ f t, f ∈ resolved → t ∈ tickers →
    ∃ series,
      outcome (Factor_fetch fs vq f t) = Ok series ∧
      ∀ d, frame_cell df (full_name f, t) d
           = if decide (d ∈ df_index df)
             then if bool_decide (Forall (λ d', d' ∈ series.*1) (df_index df))
                  then series_cell series d
                  else promote <$> series_cell series d
             else None.
Proof.
  intros H Hres Hnt Hnn f t Hf Ht. rewrite get_factors_eq_body in H.
  destruct (get_factors_body_columns _ _ _ _ _ H Hres f t Hf Ht)
    as (series & Hfetch & Hcells).
  exists series. rewrite <- fetch_depth. split; [done|].
  intros d. by rewrite (Hcells Hnt Hnn d).
Qed.

(** X11. A call of [get_factors] that returns a table has first read the
    OHLCV resource of every listed ticker, and then, ticker by ticker and
    factor by factor in the order of the lists, done what the fetch of
    each factor does: so a computed factor reads the ticker's OHLCV
    resource again, with its dependencies, before its transform runs. *)
Theorem get_factors_reads tickers factors df resolved :
  outcome (get_factors fs vq tickers factors) = Ok df →
  resolve_factors factors = Ok resolved →
  trace (get_factors fs vq tickers factors)
  = (EvRead ∘ ohlcv_path vq <$> tickers)
      ++ (tickers ≫= λ t, resolved ≫= λ f, trace (Factor_fetch fs vq f t)).
Proof.
  intros H Hres. rewrite get_factors_eq_body in *.
  rewrite (get_factors_body_trace _ _ _ _ _ H Hres). f_equal.
  apply list_bind_ext; [|done]. intros t.
  apply list_bind_ext; [|done]. intros f. by rewrite fetch_depth.
Qed.

(** ** [StoredFactor.fetch] and the storage adapter *)

Lemma StoredFactor_fetch_Ok name category ticker series :
  outcome (StoredFactor_fetch fs vq name category ticker) = Ok series ↔
  ∃ t data,
    fs !! path_of vq ticker category name = Some (Parquet t) ∧
    column_of (pq_columns t) "value" = Some data ∧ series = zip (pq_index t) data.
Proof.
  unfold StoredFactor_fetch, try_except, bind, read_parquet, emit, raise, ret, lift,
    getitem_value.
  simpl. destruct (fs !! path_of vq ticker category name) as [[msg|t]|]; simpl.
  - split; [discriminate|]. by intros (? & ? & Hf & _).
  - destruct (column_of (pq_columns t) "value") as [data|] eqn:Hcol; simpl.
    + split; [intros [= <-]; eauto|].
      intros (t' & data' & Hf & Hc & ->). injection Hf as <-.
      rewrite Hcol in Hc. by injection Hc as <-.
    + split; [discriminate|].
      intros (t' & data' & Hf & Hc & _). injection Hf as <-.
      rewrite Hcol in Hc. discriminate.
  - split; [discriminate|]. by intros (? & ? & Hf & _).
Qed.

(** X12. [StoredFactor.fetch] has three results: [FactorNotFoundError]
    exactly when there is no resource at the factor's path;
    [DataLoadError] when the resource cannot be deserialized or has no
    column "value"; otherwise the "value" column on the row labels of the
    table read. *)
Theorem StoredFactor_fetch_cases (name category ticker : string) :
  match fs !! path_of vq ticker category name with
  | None =>
      ∃ msg, outcome (StoredFactor_fetch fs vq name category ticker)
             = Raise (MkExc FactorNotFoundError msg)
  | Some (Unreadable _) =>
      ∃ msg, outcome (StoredFactor_fetch fs vq name category ticker)
             = Raise (MkExc DataLoadError msg)
  | Some (Parquet t) =>
      match column_of (pq_columns t) "value" with
      | None =>
          ∃ msg, outcome (StoredFactor_fetch fs vq name category ticker)
                 = Raise (MkExc DataLoadError msg)
      | Some data =>
          outcome (StoredFactor_fetch fs vq name category ticker)
          = Ok (zip (pq_index t) data)
      end
  end.
Proof.
  unfold StoredFactor_fetch, try_except, bind, read_parquet, emit, raise, ret, lift,
    getitem_value.
  simpl. destruct (fs !! path_of vq ticker category name) as [[msg|t]|]; simpl.
  - eauto.
  - destruct (column_of (pq_columns t) "value") as [data|]; simpl; eauto.
  - eauto.
Qed.

(** X13. The default adapter leaves the category out of the path: two
    stored factors of the same name in different categories read the same
    resource and fetch the same series, and a stored factor named "ohlcv"
    reads the ticker's OHLCV resource, whatever its category. *)
Theorem default_path_ignores_category (name c1 c2 ticker : string) :
  storage_adapter vq = DefaultStorageAdapter →
  path_of vq ticker c1 name = path_of vq ticker c2 name ∧
  path_of vq ticker c1 "ohlcv" = ohlcv_path vq ticker ∧
  trace (StoredFactor_fetch fs vq name c1 ticker)
  = trace (StoredFactor_fetch fs vq name c2 ticker) ∧
  ∀ series,
    outcome (StoredFactor_fetch fs vq name c1 ticker) = Ok series ↔
    outcome (StoredFactor_fetch fs vq name c2 ticker) = Ok series.
Proof.
  intros Hsa.
  assert (∀ c n, path_of vq ticker c n = path_of vq ticker c2 n) as Hpath.
  { intros c n. unfold path_of. by rewrite Hsa. }
  split_and!.
  - apply Hpath.
  - unfold ohlcv_path. by rewrite (Hpath c1), (Hpath "ohlcv").
  - by rewrite !StoredFactor_fetch_trace, Hpath.
  - intros series. by rewrite !StoredFactor_fetch_Ok, Hpath.
Qed.

(** ** [ComputedFactor.fetch] *)

(** Dependency strings resolve to stored factors, one per string and in
    order, each at the resource that the string names. *)
Lemma resolve_factors_dependencies (deps : list string) (ticker : string) :
  ∃ resolved,
    resolve_factors (V:=V) (SpecStr <$> deps) = Ok resolved ∧
    Forall2 (λ dep f, ∃ name category,
               f = StoredFactor name category ∧
               path_of vq ticker category name = dependency_path vq ticker dep)
      deps resolved.
Proof.
  induction deps as [|d deps (resolved & Hres & Hall)];
    [exists []; split; [done|constructor]|].
  rewrite fmap_cons, resolve_factors_cons, Hres.
  unfold resolve_spec, has_dot, split_dot_1.
  destruct (partition_dot d) as [[a b]|] eqn:E; simpl.
  - eexists. split; [done|]. constructor; [|done]. exists b, a.
    split; [done|]. unfold dependency_path. by rewrite E.
  - eexists. split; [done|]. constructor; [|done]. exists d, "technical".
    split; [done|]. unfold dependency_path. by rewrite E.
Qed.

Lemma dependencies_reads rec (deps : list string) (resolved : list (Factor V))
    (ticker : string) :
  Forall2 (λ dep f, ∃ name category,
             f = StoredFactor name category ∧
             path_of vq ticker category name = dependency_path vq ticker dep)
    deps resolved →
  resolved ≫= (λ f, trace (fetch fs vq rec f ticker))
  = EvRead ∘ dependency_path vq ticker <$> deps.
Proof.
  induction 1 as [|d f deps resolved (n & c & -> & Hp) _ IH]; [done|].
  rewrite bind_cons, fmap_cons, IH. cbn [fetch].
  by rewrite StoredFactor_fetch_trace, Hp.
Qed.

Lemma ohlcv_dates_read_base ticker x :
  x ∈ ohlcv_dates fs vq ticker ↔
  ∃ frame, outcome (read_base fs vq ticker) = Ok frame ∧ x ∈ df_index frame.
Proof.
  unfold ohlcv_dates. split.
  - destruct (fs !! ohlcv_path vq ticker) as [[msg|tbl]|] eqn:Hf;
      [by intros ?%elem_of_nil| |by intros ?%elem_of_nil].
    destruct (pq_date tbl) as [dates|] eqn:Hd; [|by intros ?%elem_of_nil].
    intros Hx. exists (MkFrame dates (pq_columns tbl)). split; [|done].
    by apply read_base_Some.
  - intros (frame & (tbl & -> & ->)%read_base_Ok & Hx). done.
Qed.

(** C8. A computed factor depends on the list it is given, and on
    ["ohlcv.close"] when it is given none.  Its fetch for a ticker calls
    [get_factors] for that one ticker with every declared dependency.
    If the call returns, then before the transform ran the ticker's OHLCV
    resource and the resource of every declared dependency, each for that
    ticker, were read, in the order of the list, and nothing else; the
    resulting table is keyed by the dates of the ticker's OHLCV resource
    and has one column per dependency, labelled with the dependency and
    the ticker, which, when no dependency is declared twice, holds the
    series stored for that dependency and ticker; the transform is then
    called once, on that table, and its result is the result of the
    fetch.  If the call raises, the fetch raises the same exception after
    reads of that ticker's resources only, and the transform is not
    called. *)
Theorem ComputedFactor_fetch_spec (name category : string)
    (fn : WideTable V → Res (Series V)) (deps : option (list string))
    (declared : list string) (ticker : string) :
  deps = Some declared ∧ declared ≠ []
    ∨ (deps = None ∨ deps = Some []) ∧ declared = ["ohlcv.close"] →
  let run := Factor_fetch fs vq (ComputedFactor name category fn deps) ticker in
  let reads :=
    EvRead (ohlcv_path vq ticker)
      :: (EvRead ∘ dependency_path vq ticker <$> declared) in
  let label := λ dep : string, (requested_name (V:=V) (SpecStr dep), ticker) in
  (∃ dep_data,
      outcome (get_factors fs vq [ticker] (SpecStr <$> declared)) = Ok dep_data ∧
      run = MkRun (reads ++ [EvTransform (category +:+ "." +:+ name) ticker])
              (fn dep_data) ∧
      (df_columns dep_data).*1 = label <$> declared ∧
      (∀ x, x ∈ df_index dep_data ↔ x ∈ ohlcv_dates fs vq ticker) ∧
      ∀ dep, dep ∈ declared →
        ∃ series,
          stored_series fs (dependency_path vq ticker dep) = Some series ∧
          (NoDup (label <$> declared) →
           ∀ x, frame_cell dep_data (label dep) x
                = if decide (x ∈ df_index dep_data)
                  then aligned_cell (df_index dep_data) series.*1
                         (series_cell series x)
                  else None))
  ∨ (∃ e,
      outcome (get_factors fs vq [ticker] (SpecStr <$> declared)) = Raise e ∧
      outcome run = Raise e ∧
      Forall (λ ev, ∃ c n, ev = EvRead (path_of vq ticker c n)) (trace run)).
Proof.
  intros Hdecl run reads label.
  assert (ComputedFactor name category fn deps
          = MkComputedFactor name category fn declared) as Hfac.
  { unfold ComputedFactor. f_equal.
    destruct Hdecl as [[-> Hne]|[[->| ->] ->]]; [by destruct declared|done..]. }
  subst run. rewrite Hfac. unfold Factor_fetch. cbn [fetch].
  destruct (outcome (get_factors fs vq [ticker] (SpecStr <$> declared)))
    as [dep_data|e] eqn:Hdep.
  - left. exists dep_data. split; [done|].
    rewrite (bind_Ok _ _ _ Hdep).
    destruct (resolve_factors_dependencies declared ticker) as (resolved & Hres & Hall).
    pose proof Hdep as Hbody. rewrite get_factors_eq_body in Hbody.
    pose proof (get_factors_body_trace _ _ _ _ _ Hbody Hres) as Htr.
    rewrite <- get_factors_eq_body in Htr.
    change ([ticker] ≫= _) with
      ((resolved ≫= λ f, trace (fetch fs vq (get_factors_fuel fs vq 1) f ticker)) ++ [])
      in Htr.
    rewrite app_nil_r, (dependencies_reads _ _ _ _ Hall) in Htr.
    pose proof (get_factors_body_Ok _ _ _ _ _ _ Hbody)
      as (resolved' & Hres' & Hlab & _ & _ & Hidx).
    rewrite Hres in Hres'. injection Hres' as <-.
    pose proof (resolve_factors_requested _ _ Hres) as [_ Hnames].
    split_and!.
    + rewrite Htr. unfold bind, emit, lift. simpl. done.
    + rewrite Hlab, Hnames, from_product_single. unfold label.
      by rewrite <- !list_fmap_compose.
    + intros x. rewrite Hidx, ohlcv_dates_read_base. split.
      * intros (t & frame & ->%list_elem_of_singleton & Hf & Hx). eauto.
      * intros (frame & Hf & Hx). exists ticker, frame.
        split_and!; [by left|done..].
    + intros d Hd.
      apply list_elem_of_lookup_1 in Hd as [k Hk].
      destruct (Forall2_lookup_l _ _ _ _ _ Hall Hk)
        as (f & Hkf & n & c & -> & Hpath).
      assert (StoredFactor n c ∈ resolved) as Hin by (by eapply list_elem_of_lookup_2).
      destruct (get_factors_body_columns _ _ _ _ _ Hbody Hres _ ticker Hin
                  ltac:(left)) as (series & Hfetch & Hcells).
      cbn [fetch] in Hfetch.
      apply StoredFactor_fetch_Ok in Hfetch as (tbl & data & Hf & Hcol & ->).
      exists (zip (pq_index tbl) data). split.
      { unfold stored_series. by rewrite <- Hpath, Hf, Hcol. }
      intros Hnodup x.
      assert (full_name (V:=V) (StoredFactor n c) = requested_name (V:=V) (SpecStr d))
        as Hname.
      { apply (f_equal (λ l, l !! k)) in Hnames.
        rewrite !list_lookup_fmap, Hkf, Hk in Hnames. by injection Hnames. }
      unfold label. rewrite <- Hname. apply Hcells.
      * apply NoDup_singleton.
      * rewrite Hnames. unfold label in Hnodup.
        apply (NoDup_fmap_1 (λ n, (n, ticker))).
        by rewrite <- !list_fmap_compose.
  - right. exists e. rewrite (bind_Raise _ _ _ Hdep). split_and!; [done..|].
    simpl. apply dependencies_trace.
Qed.

(** ** [Signal.evaluate] *)

(** X14. Evaluating a signal for a ticker reads resources of that ticker
    only and runs no transform, computed factors among its factors
    included: the factors reach [get_factors] as their full names, which
    resolve to stored factors. *)
Theorem Signal_evaluate_reads (s : Signal V) (ticker : string) :
  Forall (λ ev, ∃ category name, ev = EvRead (path_of vq ticker category name))
    (trace (Signal_evaluate fs vq s ticker)).
Proof.
  unfold Signal_evaluate.
  apply trace_bind_Forall; [by constructor|]. intros names _.
  apply trace_bind_Forall; [|by constructor].
  unfold get_factors. cbn [get_factors_fuel]. apply dependencies_trace.
Qed.

Lemma signal_factors_names (factors : list (FactorSpec V)) :
  (∀ s, SpecStr s ∈ factors → has_dot s = true) → SpecOther ∉ factors →
  ∃ names,
    spec_full_names (stored_spec <$> factors) = Ok names ∧
    Forall2 (λ f n, match f with
                    | SpecStr s => n = s
                    | SpecFactor fac => n = full_name fac
                    | SpecOther => False
                    end) factors names.
Proof.
  induction factors as [|f factors IH]; intros Hdot Hother.
  - exists []. split; [done|constructor].
  - destruct IH as (names & Hnames & Hall).
    { intros s Hs. apply Hdot. by right. }
    { intros Hin. apply Hother. by right. }
    rewrite fmap_cons. cbn [spec_full_names]. rewrite Hnames.
    destruct f as [s|fac|].
    + specialize (Hdot s ltac:(left)). unfold has_dot in Hdot. unfold stored_spec.
      destruct (partition_dot s) as [[a b]|] eqn:E; [|discriminate].
      apply partition_dot_Some in E as [-> _].
      eexists. split; [done|]. by constructor.
    + eexists. split; [done|]. by constructor.
    + exfalso. apply Hother. left.
Qed.

(** X15. A signal built from dotted strings and factor objects is
    evaluated for a ticker by calling [get_factors] for that ticker with
    the strings as they were given and the full names of the factor
    objects, in the order of the list, and applying the condition to the
    table. *)
Theorem Signal_evaluate_names (name : string) (factors : list (FactorSpec V))
    (condition : WideTable V → Res (Series V)) (ticker : string) :
  (∀ s, SpecStr s ∈ factors → has_dot s = true) → SpecOther ∉ factors →
  ∃ sig names,
    create_signal name factors condition = Ok sig ∧
    Forall2 (λ f n, match f with
                    | SpecStr s => n = s
                    | SpecFactor fac => n = full_name fac
                    | SpecOther => False
                    end) factors names ∧
    Signal_evaluate fs vq sig ticker
    = (factor_data <- get_factors fs vq [ticker] (SpecStr <$> names) ;;
       lift (condition factor_data)).
Proof.
  intros Hdot Hother.
  destruct (signal_factors_names factors Hdot Hother) as (names & Hnames & Hall).
  exists (MkSignal name (stored_spec <$> factors) condition), names.
  split_and!; [|done|].
  - unfold create_signal, Signal_init. by rewrite signal_factors_dotted.
  - unfold Signal_evaluate. simpl. by rewrite Hnames, bind_lift_Ok.
Qed.
End FactorsTable.

(** ** The further properties on the example store *)

Section MoreOnExamples.
Import Examples.

Lemma fs0_ohlcv_files (cols : list string) :
  cols ⊆ ["open"; "close"] →
  ∀ t, t ∈ ["A"; "B"] →
    ∃ tbl dates,
      fs0 !! ohlcv_path vq0 t = Some (Parquet tbl) ∧ pq_date tbl = Some dates ∧
      NoDup dates ∧ ∀ c, c ∈ cols → is_Some (column_of (pq_columns tbl) c).
Proof.
  intros Hsub t Ht.
  assert (∀ c, c ∈ cols → c = "open" ∨ c = "close") as Hc.
  { intros c Hin. apply Hsub in Hin. rewrite !elem_of_cons, elem_of_nil in Hin. tauto. }
  assert (NoDup [1; 2]%Z ∧ NoDup [2; 3]%Z) as [Hn1 Hn2].
  { split; apply (bool_decide_unpack _); by vm_compute. }
  rewrite !elem_of_cons, elem_of_nil in Ht. destruct Ht as [->|[->|[]]].
  - exists tblA, [1; 2]%Z. split_and!; [by vm_compute|done|done|].
    intros c [->| ->]%Hc; by eexists.
  - exists tblB, [2; 3]%Z. split_and!; [by vm_compute|done|done|].
    intros c [->| ->]%Hc; by eexists.
Qed.

Lemma get_ohlcv_row_index_witness :
  ∃ df,
    outcome (get_ohlcv fs0 vq0 ["A"; "B"] ["close"]) = Ok df ∧
    StronglySorted Z.lt (df_index df) ∧
    ∀ d, d ∈ df_index df ↔
         ∃ t tbl dates,
           t ∈ ["A"; "B"] ∧ fs0 !! ohlcv_path vq0 t = Some (Parquet tbl) ∧
           pq_date tbl = Some dates ∧ d ∈ dates.
Proof.
  eexists. split; [vm_compute; reflexivity|].
  apply (get_ohlcv_row_index fs0 vq0 ["A"; "B"] ["close"]).
  vm_compute. reflexivity.
Defined.

Lemma get_ohlcv_table_layout_witness :
  ∃ df,
    get_ohlcv fs0 vq0 ["A"; "B"] ["open"; "close"]
    = MkRun (EvRead ∘ ohlcv_path vq0 <$> ["A"; "B"]) (Ok df) ∧
    ∀ k c' t' c t d,
      from_product ["open"; "close"] ["A"; "B"] !! k = Some (c', t') →
      (["A"; "B"] ≫= λ t, (λ c, (c, t)) <$> ["open"; "close"]) !! k = Some (c, t) →
      frame_cell df (c', t') d
      = aligned_cell (df_index df) (ohlcv_dates fs0 vq0 t) (ohlcv_cell fs0 vq0 t c d).
Proof.
  apply (get_ohlcv_table_layout fs0 vq0 ["A"; "B"] ["open"; "close"]).
  - done.
  - apply (bool_decide_unpack _). by vm_compute.
  - apply (bool_decide_unpack _). by vm_compute.
  - apply (bool_decide_unpack _). by vm_compute.
  - by apply fs0_ohlcv_files.
Defined.

Lemma fs2_ohlcv_files :
  ∀ t, t ∈ ["G"; "B"] →
    ∃ tbl dates,
      fs2 !! ohlcv_path vq0 t = Some (Parquet tbl) ∧ pq_date tbl = Some dates ∧
      NoDup dates ∧ ∀ c, c ∈ ["close"] → is_Some (column_of (pq_columns tbl) c).
Proof.
  intros t Ht.
  assert (NoDup [1]%Z ∧ NoDup [2; 3]%Z) as [Hn1 Hn2].
  { split; apply (bool_decide_unpack _); by vm_compute. }
  rewrite !elem_of_cons, elem_of_nil in Ht. destruct Ht as [->|[->|[]]].
  - exists tblG, [1]%Z. split_and!; [by vm_compute|done|done|].
    intros c ->%list_elem_of_singleton. by eexists.
  - exists tblB, [2; 3]%Z. split_and!; [by vm_compute|done|done|].
    intros c ->%list_elem_of_singleton. by eexists.
Qed.

Lemma get_ohlcv_cells_single_witness :
  ∃ df,
    outcome (get_ohlcv fs2 vq0 ["G"; "B"] ["close"]) = Ok df ∧
    ∀ t c d, t ∈ ["G"; "B"] → c ∈ ["close"] →
      frame_cell df (c, t) d
      = if bool_decide (Forall (λ d', d' ∈ ohlcv_dates fs2 vq0 t) (df_index df))
        then ohlcv_cell fs2 vq0 t c d
        else promote <$> ohlcv_cell fs2 vq0 t c d.
Proof.
  apply (get_ohlcv_cells_single fs2 vq0 ["G"; "B"] ["close"]).
  - done.
  - apply (bool_decide_unpack _). by vm_compute.
  - apply (bool_decide_unpack _). by vm_compute.
  - apply (bool_decide_unpack _). by vm_compute.
  - apply fs2_ohlcv_files.
  - by left.
Defined.

(** An [int64] close of 2^53 + 1 comes back as it is when the ticker has
    every date of the table, and as 2^53 when another ticker brings a
    date that it lacks. *)
Example get_ohlcv_promotes_int64 :
  (∃ df,
      outcome (get_ohlcv fs2 vq0 ["G"] ["close"]) = Ok df ∧
      frame_cell df ("close", "G") 1 = Some 9007199254740993%Z) ∧
  (∃ df,
      outcome (get_ohlcv fs2 vq0 ["G"; "B"] ["close"]) = Ok df ∧
      frame_cell df ("close", "G") 1 = Some 9007199254740992%Z).
Proof.
  split; eexists; (split; [vm_compute; reflexivity|]); vm_compute; reflexivity.
Qed.

(** The same for a stored factor of 2^53 + 1 on date 1, next to a ticker
    that also has date 2. *)
Example get_factors_promotes_int64 :
  ∃ df,
    outcome (get_factors fs2 vq0 ["G"; "A"] [SpecStr "rsi_14"]) = Ok df ∧
    frame_cell df ("technical.rsi_14", "G") 1 = Some 9007199254740992%Z.
Proof. eexists. split; vm_compute; reflexivity. Qed.

(** A ticker listed twice, with as many dates as it is listed: the
    assignment of the first fetched series takes the label for that of
    two columns to fill from [series[0]] and [series[1]], and the
    [KeyError] of the position 0 leaves the [try] as a
    [FactorNotFoundError]. *)
Example get_factors_repeated_ticker :
  get_factors fs0 vq0 ["A"; "A"] [SpecStr "rsi_14"]
  = MkRun [EvRead (ohlcv_path vq0 "A"); EvRead (ohlcv_path vq0 "A");
           EvRead (path_of vq0 "A" "technical" "rsi_14")]
      (Raise (MkExc FactorNotFoundError
                "Failed to compute factor technical.rsi_14 for A: 0")).
Proof. vm_compute. reflexivity. Qed.

Lemma get_ohlcv_reads_witness :
  ∃ df,
    outcome (get_ohlcv fs0 vq0 ["A"; "B"] ["close"]) = Ok df ∧
    trace (get_ohlcv fs0 vq0 ["A"; "B"] ["close"])
    = EvRead ∘ ohlcv_path vq0 <$> ["A"; "B"].
Proof.
  eexists. split; [vm_compute; reflexivity|].
  eapply (get_ohlcv_reads fs0 vq0 ["A"; "B"] ["close"]).
  vm_compute. reflexivity.
Defined.

Lemma empty_tickers_raise_witness :
  Forall (λ f : FactorSpec Z, f ≠ SpecOther) [SpecStr "rsi_14"] ∧
  get_factors fs0 vq0 [] [SpecStr "rsi_14"]
  = MkRun [] (Raise (MkExc ValueError "No objects to concatenate")).
Proof.
  assert (Forall (λ f : FactorSpec Z, f ≠ SpecOther) [SpecStr "rsi_14"]) as Hvalid
    by (repeat constructor; discriminate).
  split; [exact Hvalid|].
  exact (proj2 (empty_tickers_raise fs0 vq0 [] [SpecStr "rsi_14"]) Hvalid).
Defined.

Lemma get_factors_invalid_spec_witness :
  SpecOther ∈ [SpecStr (V:=Z) "rsi_14"; SpecOther] ∧
  get_factors fs0 vq0 ["A"] [SpecStr "rsi_14"; SpecOther]
  = MkRun [] (Raise (MkExc ValueError "Invalid factor specification")).
Proof.
  assert (SpecOther ∈ [SpecStr (V:=Z) "rsi_14"; SpecOther]) as Hin
    by (repeat constructor).
  split; [exact Hin|].
  exact (get_factors_invalid_spec fs0 vq0 ["A"] _ Hin).
Defined.

Lemma get_factors_error_kinds_witness :
  ∃ e,
    outcome (get_factors fs0 vq0 ["A"; "A"] [SpecStr "rsi_14"]) = Raise e ∧
    (exc_kind e = ValueError
     ∨ (∃ t e0,
           t ∈ ["A"; "A"] ∧ outcome (read_base fs0 vq0 t) = Raise e0 ∧
           e = MkExc DataLoadError
                 ("Failed to load OHLCV for " +:+ t +:+ ": " +:+ exc_msg e0))
     ∨ (∃ resolved f t e0,
           resolve_factors [SpecStr "rsi_14"] = Ok resolved ∧
           f ∈ resolved ∧ t ∈ ["A"; "A"] ∧
           (outcome (Factor_fetch fs0 vq0 f t) = Raise e0
            ∨ ∃ series,
                outcome (Factor_fetch fs0 vq0 f t) = Ok series ∧
                (e0 = MkExc ValueError "cannot reindex on an axis with duplicate labels"
                 ∧ ¬ NoDup series.*1
                 ∨ ¬ NoDup (from_product (full_name <$> resolved) ["A"; "A"]) ∧
                   ∃ i : nat,
                     e0 = MkExc KeyError (pretty (Z.of_nat i)) ∧
                     ∀ t' frame,
                       t' ∈ ["A"; "A"] → outcome (read_base fs0 vq0 t') = Ok frame →
                       Z.of_nat i ∉ df_index frame)) ∧
           e = MkExc FactorNotFoundError
                 ("Failed to compute factor " +:+ full_name f +:+ " for " +:+ t
                    +:+ ": " +:+ exc_msg e0))).
Proof.
  eexists. split; [vm_compute; reflexivity|].
  apply (get_factors_error_kinds fs0 vq0 ["A"; "A"] [SpecStr "rsi_14"]).
  vm_compute. reflexivity.
Defined.

Lemma get_factors_cells_witness :
  ∃ df,
    outcome (get_factors fs2 vq0 ["G"; "A"] [SpecStr "rsi_14"]) = Ok df ∧
    ∀ f t, f ∈ [StoredFactor (V:=Z) "rsi_14" "technical"] → t ∈ ["G"; "A"] →
      ∃ series,
        outcome (Factor_fetch fs2 vq0 f t) = Ok series ∧
        ∀ d, frame_cell df (full_name f, t) d
             = if decide (d ∈ df_index df)
               then if bool_decide (Forall (λ d', d' ∈ series.*1) (df_index df))
                    then series_cell series d
                    else promote <$> series_cell series d
               else None.
Proof.
  eexists. split; [vm_compute; reflexivity|].
  apply (get_factors_cells fs2 vq0 ["G"; "A"] [SpecStr "rsi_14"]).
  - vm_compute. reflexivity.
  - reflexivity.
  - apply (bool_decide_unpack _). by vm_compute.
  - apply (bool_decide_unpack _). by vm_compute.
Defined.

Lemma get_factors_reads_witness :
  ∃ df,
    outcome (get_factors fs0 vq0 ["A"] [SpecStr "technical.rsi_14"]) = Ok df ∧
    trace (get_factors fs0 vq0 ["A"] [SpecStr "technical.rsi_14"])
    = (EvRead ∘ ohlcv_path vq0 <$> ["A"])
        ++ (["A"] ≫= λ t, [StoredFactor (V:=Z) "rsi_14" "technical"]
                            ≫= λ f, trace (Factor_fetch fs0 vq0 f t)).
Proof.
  eexists. split; [vm_compute; reflexivity|].
  eapply (get_factors_reads fs0 vq0 ["A"] [SpecStr "technical.rsi_14"]).
  - vm_compute. reflexivity.
  - reflexivity.
Defined.

Lemma default_path_ignores_category_witness :
  storage_adapter vq0 = DefaultStorageAdapter ∧
  path_of vq0 "A" "technical" "rsi_14" = path_of vq0 "A" "momentum" "rsi_14" ∧
  path_of vq0 "A" "technical" "ohlcv" = ohlcv_path vq0 "A" ∧
  trace (StoredFactor_fetch fs0 vq0 "rsi_14" "technical" "A")
  = trace (StoredFactor_fetch fs0 vq0 "rsi_14" "momentum" "A") ∧
  ∀ series,
    outcome (StoredFactor_fetch fs0 vq0 "rsi_14" "technical" "A") = Ok series ↔
    outcome (StoredFactor_fetch fs0 vq0 "rsi_14" "momentum" "A") = Ok series.
Proof.
  split; [reflexivity|].
  exact (default_path_ignores_category fs0 vq0 "rsi_14" "technical" "momentum" "A"
           eq_refl).
Defined.

(** A computed factor on two stored dependencies of ticker A: the
    ticker's OHLCV resource and the two dependencies are read, then the
    transform runs on the table of the two columns. *)
Example ComputedFactor_fetch_example :
  Factor_fetch fs0 vq0
    (ComputedFactor "first" "custom" first_column
       (Some ["technical.rsi_14"; "momentum.rsi_14"])) "A"
  = MkRun [EvRead (ohlcv_path vq0 "A");
           EvRead (path_of vq0 "A" "technical" "rsi_14");
           EvRead (path_of vq0 "A" "momentum" "rsi_14");
           EvTransform "custom.first" "A"]
      (Ok [(1, None); (2, Some 70)]%Z).
Proof. vm_compute. reflexivity. Qed.

Lemma ComputedFactor_fetch_spec_witness :
  (Some ["technical.rsi_14"; "momentum.rsi_14"]
   = Some ["technical.rsi_14"; "momentum.rsi_14"]
   ∧ ["technical.rsi_14"; "momentum.rsi_14"] ≠ []
   ∨ (Some ["technical.rsi_14"; "momentum.rsi_14"] = None
      ∨ Some ["technical.rsi_14"; "momentum.rsi_14"] = Some [])
     ∧ ["technical.rsi_14"; "momentum.rsi_14"] = ["ohlcv.close"]) ∧
  ∃ dep_data,
    outcome (get_factors fs0 vq0 ["A"]
               (SpecStr <$> ["technical.rsi_14"; "momentum.rsi_14"])) = Ok dep_data ∧
    Factor_fetch fs0 vq0
      (ComputedFactor "first" "custom" first_column
         (Some ["technical.rsi_14"; "momentum.rsi_14"])) "A"
    = MkRun ((EvRead (ohlcv_path vq0 "A")
                :: (EvRead ∘ dependency_path vq0 "A"
                      <$> ["technical.rsi_14"; "momentum.rsi_14"]))
               ++ [EvTransform ("custom" +:+ "." +:+ "first") "A"])
        (first_column dep_data) ∧
    (df_columns dep_data).*1
    = (λ dep : string, (requested_name (V:=Z) (SpecStr dep), "A"))
        <$> ["technical.rsi_14"; "momentum.rsi_14"] ∧
    (∀ x, x ∈ df_index dep_data ↔ x ∈ ohlcv_dates fs0 vq0 "A") ∧
    ∀ dep, dep ∈ ["technical.rsi_14"; "momentum.rsi_14"] →
      ∃ series,
        stored_series fs0 (dependency_path vq0 "A" dep) = Some series ∧
        (NoDup ((λ dep : string, (requested_name (V:=Z) (SpecStr dep), "A"))
                  <$> ["technical.rsi_14"; "momentum.rsi_14"]) →
         ∀ x, frame_cell dep_data (requested_name (V:=Z) (SpecStr dep), "A") x
              = if decide (x ∈ df_index dep_data)
                then aligned_cell (df_index dep_data) series.*1 (series_cell series x)
                else None).
Proof.
  assert (Some ["technical.rsi_14"; "momentum.rsi_14"]
          = Some ["technical.rsi_14"; "momentum.rsi_14"]
          ∧ ["technical.rsi_14"; "momentum.rsi_14"] ≠ []
          ∨ (Some ["technical.rsi_14"; "momentum.rsi_14"] = None
             ∨ Some ["technical.rsi_14"; "momentum.rsi_14"] = Some [])
            ∧ ["technical.rsi_14"; "momentum.rsi_14"] = ["ohlcv.close"]) as Hdecl
    by (left; split; [reflexivity|discriminate]).
  split; [exact Hdecl|].
  destruct (ComputedFactor_fetch_spec fs0 vq0 "first" "custom" first_column
              (Some ["technical.rsi_14"; "momentum.rsi_14"])
              ["technical.rsi_14"; "momentum.rsi_14"] "A" Hdecl)
    as [Hreturns|(e & Hraises & _)].
  - exact Hreturns.
  - vm_compute in Hraises. discriminate Hraises.
Defined.

Lemma Signal_evaluate_names_witness :
  ∃ sig names,
    create_signal "s" [SpecStr (V:=Z) "technical.rsi_14"] (λ _, Ok []) = Ok sig ∧
    Forall2 (λ (f : FactorSpec Z) n,
               match f with
               | SpecStr s => n = s
               | SpecFactor fac => n = full_name fac
               | SpecOther => False
               end) [SpecStr "technical.rsi_14"] names ∧
    Signal_evaluate fs0 vq0 sig "A"
    = (factor_data <- get_factors fs0 vq0 ["A"] (SpecStr <$> names) ;;
       lift (Ok [])).
Proof.
  apply (Signal_evaluate_names fs0 vq0 "s" [SpecStr "technical.rsi_14"]
           (λ _, Ok []) "A").
  - intros s Hs%list_elem_of_singleton. by injection Hs as ->.
  - intros Hs%list_elem_of_singleton. discriminate.
Defined.
End MoreOnExamples.
